(** * VIBE_Mesh: the renderer of [lib/utils/renderer.py]

    A shallow embedding of the module's two classes, [WeakPerspectiveCamera]
    and [Renderer], together with the parts of numpy, trimesh and pyrender that
    their methods call, followed by the properties of the camera matrix, of the
    compositing step and of the push/pop protocol on the scene graph. *)

From Stdlib Require Import ZArith List Floats Field Ring QArith Qcanon Lia.
From stdpp Require Import gmap strings list.

Set Default Proof Using "Type".
Local Open Scope Z_scope.

(** ** Python results

    A Python call either returns a value or raises; an exception is named by
    its class. *)

Inductive result (A : Type) : Type :=
| Ok (a : A)
| Raise (e : string).
Arguments Ok {A} a.
Arguments Raise {A} e.

Definition rbind {A B} (m : result A) (k : A -> result B) : result B :=
  match m with
  | Ok a => k a
  | Raise e => Raise e
  end.

Notation "x <- m ;; k" := (rbind m (fun x => k))
  (at level 100, m at next level, right associativity).

(** ** Scalars

    The arithmetic the module performs on numbers, as an interface: [lit] is an
    integer literal (or an [int] converted to the array's dtype), [feqb] is
    Python's [==].  It has two instances below: IEEE-754 binary64, the dtype of
    every matrix the module builds, and the exact rationals. *)

Class Scalar (F : Type) : Type := {
  lit : Z -> F;
  fadd : F -> F -> F;
  fsub : F -> F -> F;
  fmul : F -> F -> F;
  fdiv : F -> F -> F;
  fneg : F -> F;
  feqb : F -> F -> bool
}.

(** The functions of Python's [math] module that trimesh uses. *)
Class Libm (F : Type) : Type := {
  math_pi : F;
  math_sqrt : F -> F;
  math_sin : F -> F;
  math_cos : F -> F
}.

Definition float_of_Z (z : Z) : float :=
  match z with
  | Z0 => PrimFloat.zero
  | Zpos _ => PrimFloat.of_uint63 (Uint63.of_Z z)
  | Zneg p => PrimFloat.opp (PrimFloat.of_uint63 (Uint63.of_Z (Zpos p)))
  end.

#[export] Instance float64 : Scalar float := {|
  lit := float_of_Z;
  fadd := PrimFloat.add;
  fsub := PrimFloat.sub;
  fmul := PrimFloat.mul;
  fdiv := PrimFloat.div;
  fneg := PrimFloat.opp;
  feqb := PrimFloat.eqb
|}.

(** [math] on binary64: the square root is IEEE's; sine and cosine are the
    platform's, taken as given. *)
Definition float64_math (sin cos : float -> float) : Libm float := {|
  math_pi := 0x1.921fb54442d18p+1%float;
  math_sqrt := PrimFloat.sqrt;
  math_sin := sin;
  math_cos := cos
|}.

#[export] Instance rational : Scalar Qc := {|
  lit z := Q2Qc (inject_Z z);
  fadd := Qcplus;
  fsub := Qcminus;
  fmul := Qcmult;
  fdiv := Qcdiv;
  fneg := Qcopp;
  feqb x y := if Qc_eq_dec x y then true else false
|}.

(** ** numpy: matrices

    A two-dimensional float array is a list of rows. *)

Section Matrices.
Context {F : Type} {SF : Scalar F}.

Definition matrix : Type := list (list F).

(** [np.eye(n)], [np.identity(n)] *)
Definition np_eye (n : nat) : matrix :=
  map (fun i => map (fun j => if Nat.eqb i j then lit 1 else lit 0) (seq 0 n)) (seq 0 n).

(** [M[i, j] = v], for indices within the shape (all in this module are
    constants within it). *)
Definition setitem (M : matrix) (i j : nat) (v : F) : matrix :=
  alter (fun row => <[j := v]> row) i M.

(** [M[i, j]] *)
Definition getitem (M : matrix) (i j : nat) : option F :=
  row ← M !! i; row !! j.
End Matrices.
Arguments matrix F : clear implicits.

(** ** [class WeakPerspectiveCamera(pyrender.Camera)] *)

Record WeakPerspectiveCamera (F : Type) : Type := {
  scale : F * F;
  translation : F * F;
  znear : F;
  zfar : option F;
  name : option string
}.
Arguments scale {F} _.
Arguments translation {F} _.
Arguments znear {F} _.
Arguments zfar {F} _.
Arguments name {F} _.

Section Camera.
Context {F : Type} {SF : Scalar F}.

Definition get_projection_matrix (self : WeakPerspectiveCamera F)
    (width height : option Z) : matrix F :=
  let P := np_eye 4 in
  let P := setitem P 0 0 (fst (scale self)) in
  let P := setitem P 1 1 (snd (scale self)) in
  let P := setitem P 0 3 (fmul (fst (translation self)) (fst (scale self))) in
  let P := setitem P 1 3 (fmul (fneg (snd (translation self))) (snd (scale self))) in
  let P := setitem P 2 2 (lit (-1)) in
  P.
End Camera.

(** ** numpy: images

    A three-dimensional integer array (rows, columns, channels) is its shape
    and its elements by index; only the indices within the shape are meaningful.
    Booleans are 0 and 1. *)

Record ndarray : Type := {
  shape : nat * nat * nat;
  item : nat -> nat -> nat -> Z
}.

(** [np.full(shape, v)] *)
Definition np_full (shp : nat * nat * nat) (v : Z) : ndarray :=
  {| shape := shp; item := fun _ _ _ => v |}.

(** Broadcasting of two extents along one axis: equal, or one of them 1;
    otherwise numpy raises [ValueError] (operands could not be broadcast
    together). *)
Definition broadcast_dim (a b : nat) : result nat :=
  if Nat.eqb a b then Ok a
  else if Nat.eqb a 1 then Ok b
  else if Nat.eqb b 1 then Ok a
  else Raise "ValueError".

(** Two extents broadcast exactly when they are equal or one of them is 1. *)
Definition compatible (a b : nat) : Prop := a = b \/ a = 1%nat \/ b = 1%nat.

Definition broadcast_shapes (s1 s2 : nat * nat * nat) : result (nat * nat * nat) :=
  let '(h1, w1, c1) := s1 in
  let '(h2, w2, c2) := s2 in
  h <- broadcast_dim h1 h2 ;;
  w <- broadcast_dim w1 w2 ;;
  c <- broadcast_dim c1 c2 ;;
  Ok (h, w, c).

(** An axis of extent 1 is read with stride 0. *)
Definition bidx (extent i : nat) : nat :=
  if Nat.eqb extent 1 then 0%nat else i.

Definition bitem (a : ndarray) (i j k : nat) : Z :=
  let '(h, w, c) := shape a in
  item a (bidx h i) (bidx w j) (bidx c k).

(** An elementwise binary operator on two arrays. *)
Definition elementwise (f : Z -> Z -> Z) (a b : ndarray) : result ndarray :=
  shp <- broadcast_shapes (shape a) (shape b) ;;
  Ok {| shape := shp; item := fun i j k => f (bitem a i j k) (bitem b i j k) |}.

(** [a * b] and [a + b] *)
Definition np_multiply : ndarray -> ndarray -> result ndarray := elementwise Z.mul.
Definition np_add : ndarray -> ndarray -> result ndarray := elementwise Z.add.

(** [1 - a], the Python int on the left *)
Definition np_rsub (n : Z) (a : ndarray) : ndarray :=
  {| shape := shape a; item := fun i j k => n - item a i j k |}.

(** [a.astype(np.uint8)] of an integer array: the value modulo 256 *)
Definition astype_uint8 (a : ndarray) : ndarray :=
  {| shape := shape a; item := fun i j k => item a i j k mod 256 |}.

(** [(rgb[:, :, -1] > 0)[:, :, np.newaxis]]: the last channel compared with 0,
    kept as an axis of extent 1.  Index -1 on an empty axis is an [IndexError]. *)
Definition last_channel_positive (rgb : ndarray) : result ndarray :=
  let '(h, w, c) := shape rgb in
  if Nat.eqb c 0 then Raise "IndexError"
  else Ok {| shape := (h, w, 1%nat);
             item := fun i j _ => if 0 <? item rgb i j (c - 1) then 1 else 0 |}.

(** [rgb[:, :, :-1]]: all channels but the last *)
Definition drop_last_channel (rgb : ndarray) : ndarray :=
  let '(h, w, c) := shape rgb in
  {| shape := (h, w, (c - 1)%nat); item := item rgb |}.

(** The compositing step, the same three lines in [render], [render_obj] and
    [pop_and_render]:
<<
    valid_mask = (rgb[:, :, -1] > 0)[:, :, np.newaxis]
    output_img = rgb[:, :, :-1] * valid_mask + (1 - valid_mask) * img
    image = output_img.astype(np.uint8)
>>
    [rgb] is the rasterizer's uint8 RGBA output; a byte times a boolean stays a
    byte, and the sum of the two products, of which one is 0, is exact. *)
Definition composite (rgb img : ndarray) : result ndarray :=
  valid_mask <- last_channel_positive rgb ;;
  foreground <- np_multiply (drop_last_channel rgb) valid_mask ;;
  background <- np_multiply (np_rsub 1 valid_mask) img ;;
  output_img <- np_add foreground background ;;
  Ok (astype_uint8 output_img).

(** ** numpy: linear algebra *)

Section LinearAlgebra.
Context {F : Type} {SF : Scalar F}.

Definition np_sum (l : list F) : F := fold_right fadd (lit 0) l.

(** [np.dot(a, b)] of two vectors *)
Definition np_dot (a b : list F) : F := np_sum (zip_with fmul a b).

(** [A @ v] *)
Definition matvec (A : matrix F) (v : list F) : list F :=
  map (fun row => np_dot row v) A.



Definition sign (i : nat) : F := if Nat.even i then lit 1 else lit (-1).

(** The determinant of an [n] by [n] matrix, expanded along its first row. *)
Fixpoint det (n : nat) (M : matrix F) : F :=
  match n, M with
  | S n', row :: rest =>
      np_sum (imap (fun j a => fmul (sign j) (fmul a (det n' (map (delete j) rest)))) row)
  | _, _ => lit 1
  end.

Definition cofactor (n : nat) (M : matrix F) (i j : nat) : F :=
  fmul (sign (i + j)) (det (n - 1) (map (delete j) (delete i M))).

(** [np.linalg.inv(M)] of a square matrix.  numpy calls LAPACK, which raises
    [LinAlgError] on a singular matrix; in exact arithmetic its result is the
    inverse, given here by the adjugate. *)
Definition np_linalg_inv (M : matrix F) : result (matrix F) :=
  let n := length M in
  let d := det n M in
  if feqb d (lit 0) then Raise "LinAlgError"
  else Ok (map (fun i => map (fun j => fdiv (cofactor n M j i) d) (seq 0 n)) (seq 0 n)).
End LinearAlgebra.

(** ** trimesh: [transformations] and meshes *)

Section Transformations.
Context {F : Type} {SF : Scalar F} {LF : Libm F}.

Definition vec3 : Type := F * F * F.

(** [math.radians(x)] *)
Definition math_radians (x : F) : F := fmul x (fdiv math_pi (lit 180)).

Definition np_dot3 (a b : vec3) : F :=
  let '(a0, a1, a2) := a in
  let '(b0, b1, b2) := b in
  fadd (fadd (fmul a0 b0) (fmul a1 b1)) (fmul a2 b2).

(** [unit_vector(data)]: [data /= math.sqrt(np.dot(data, data))] *)
Definition unit_vector (data : vec3) : vec3 :=
  let '(x, y, z) := data in
  let n := math_sqrt (np_dot3 data data) in
  (fdiv x n, fdiv y n, fdiv z n).

(** [np.outer(a, b)] *)
Definition np_outer (a b : vec3) : matrix F :=
  let '(a0, a1, a2) := a in
  let '(b0, b1, b2) := b in
  [ [ fmul a0 b0; fmul a0 b1; fmul a0 b2 ];
    [ fmul a1 b0; fmul a1 b1; fmul a1 b2 ];
    [ fmul a2 b0; fmul a2 b1; fmul a2 b2 ] ].

(** [M[:3, :3] = op(M[:3, :3], B)] for a 3 by 3 [B] *)
Definition update_block (op : F -> F -> F) (M B : matrix F) : matrix F :=
  imap (fun i row =>
    imap (fun j x =>
      match getitem B i j with
      | Some b => op x b
      | None => x
      end) row) M.

(** [M[:3, 3] = v] *)
Definition set_translation (M : matrix F) (v : vec3) : matrix F :=
  let '(x, y, z) := v in
  setitem (setitem (setitem M 0 3 x) 1 3 y) 2 3 z.

Definition times (B : matrix F) (s : F) : matrix F := map (map (fun x => fmul x s)) B.

(** [identity_matrix()] *)
Definition identity_matrix : matrix F := np_eye 4.

(** [rotation_matrix(angle, direction)], about the origin *)
Definition rotation_matrix (angle : F) (direction : vec3) : matrix F :=
  let sina := math_sin angle in
  let cosa := math_cos angle in
  let direction := unit_vector direction in
  let M := [ [ cosa; lit 0; lit 0; lit 0 ];
             [ lit 0; cosa; lit 0; lit 0 ];
             [ lit 0; lit 0; cosa; lit 0 ];
             [ lit 0; lit 0; lit 0; lit 1 ] ] in
  let M := update_block fadd M (times (np_outer direction direction) (fsub (lit 1) cosa)) in
  let '(d0, d1, d2) := direction in
  let '(d0, d1, d2) := (fmul d0 sina, fmul d1 sina, fmul d2 sina) in
  update_block fadd M
    [ [ lit 0; fneg d2; d1 ];
      [ d2; lit 0; fneg d0 ];
      [ fneg d1; d0; lit 0 ] ].

(** [scale_matrix(factor, origin, direction)], the non-uniform case *)
Definition scale_matrix (factor : F) (origin direction : vec3) : matrix F :=
  let direction := unit_vector direction in
  let factor := fsub (lit 1) factor in
  let M := update_block fsub (np_eye 4)
             (map (map (fmul factor)) (np_outer direction direction)) in
  let k := fmul factor (np_dot3 origin direction) in
  let '(d0, d1, d2) := direction in
  set_translation M (fmul k d0, fmul k d1, fmul k d2).

(** [translation_matrix(direction)] *)
Definition translation_matrix (direction : vec3) : matrix F :=
  set_translation (np_eye 4) direction.
End Transformations.

(** A [trimesh.Trimesh]: its vertices and faces as constructed or loaded, and
    the transforms [apply_transform] has been called with, oldest first. *)
Record Trimesh (F : Type) : Type := {
  vertices : list (F * F * F);
  mesh_faces : list (nat * nat * nat);
  applied : list (matrix F)
}.
Arguments vertices {F} _.
Arguments mesh_faces {F} _.
Arguments applied {F} _.

(** [mesh.apply_transform(M)] *)
Definition apply_transform {F} (mesh : Trimesh F) (M : matrix F) : Trimesh F :=
  {| vertices := vertices mesh; mesh_faces := mesh_faces mesh;
     applied := applied mesh ++ [M] |}.

(** ** pyrender: materials, meshes, lights, cameras, nodes and the scene *)

Record MetallicRoughnessMaterial (F : Type) : Type := {
  metallicFactor : F;
  alphaMode : string;
  baseColorFactor : F * F * F * F
}.
Arguments metallicFactor {F} _.
Arguments alphaMode {F} _.
Arguments baseColorFactor {F} _.

(** A [pyrender.Mesh] of one primitive: the trimesh it was made from and its
    material. *)
Record Mesh (F : Type) : Type := {
  primitive : Trimesh F;
  material : MetallicRoughnessMaterial F
}.
Arguments primitive {F} _.
Arguments material {F} _.

Record PointLight (F : Type) : Type := {
  color : F * F * F;
  intensity : F
}.
Arguments color {F} _.
Arguments intensity {F} _.

(** The two cameras the module constructs. *)
Inductive Camera (F : Type) : Type :=
| Weak (c : WeakPerspectiveCamera F)
| PerspectiveCamera (yfov : F).
Arguments Weak {F} c.
Arguments PerspectiveCamera {F} yfov.

(** What [Scene.add] accepts. *)
Inductive SceneObject (F : Type) : Type :=
| AMesh (m : Mesh F)
| ALight (l : PointLight F)
| ACamera (c : Camera F).
Arguments AMesh {F} m.
Arguments ALight {F} l.
Arguments ACamera {F} c.

(** A [pyrender.Node].  Python compares nodes by identity: [node_id] is the
    object's identity, the rest its attributes, which this module never
    changes after construction. *)
Record Node (F : Type) : Type := {
  node_id : nat;
  node_name : option string;
  mesh : option (Mesh F);
  light : option (PointLight F);
  camera : option (Camera F);
  pose : option (matrix F)
}.
Arguments node_id {F} _.
Arguments node_name {F} _.
Arguments mesh {F} _.
Arguments light {F} _.
Arguments camera {F} _.
Arguments pose {F} _.

(** A [pyrender.Scene]: the nodes it holds, by identity, and the number of
    nodes constructed so far (the identity of the next one). *)
Record Scene (F : Type) : Type := {
  bg_color : F * F * F * F;
  ambient_light : F * F * F;
  nodes : gmap nat (Node F);
  allocated : nat
}.
Arguments bg_color {F} _.
Arguments ambient_light {F} _.
Arguments nodes {F} _.
Arguments allocated {F} _.

Section SceneGraph.
Context {F : Type}.

(** [Scene.add(obj, name=None, pose=None)]: a new node for [obj], inserted
    and returned. *)
Definition Scene_add (self : Scene F) (obj : SceneObject F)
    (name : option string) (pose : option (matrix F)) : Node F * Scene F :=
  let node :=
    {| node_id := allocated self;
       node_name := name;
       mesh := match obj with AMesh m => Some m | _ => None end;
       light := match obj with ALight l => Some l | _ => None end;
       camera := match obj with ACamera c => Some c | _ => None end;
       pose := pose |} in
  (node,
   {| bg_color := bg_color self; ambient_light := ambient_light self;
      nodes := <[allocated self := node]> (nodes self);
      allocated := S (allocated self) |}).

(** [Scene.remove_node(node)].  pyrender looks the node up in its graph
    first, which raises [NetworkXError] for anything that is not a node of
    the scene, [None] included. *)
Definition Scene_remove_node (self : Scene F) (node : option (Node F))
    : result unit * Scene F :=
  match node with
  | None => (Raise "NetworkXError", self)
  | Some n =>
      match nodes self !! node_id n with
      | None => (Raise "NetworkXError", self)
      | Some _ =>
          (Ok tt,
           {| bg_color := bg_color self; ambient_light := ambient_light self;
              nodes := delete (node_id n) (nodes self);
              allocated := allocated self |})
      end
  end.
(** A write into an array that was passed to [Scene.add] as a pose.  A node
    keeps the array it is given, not a copy, so the nodes that were added
    with the array have the written matrix [M] for their pose; the one use
    is in the constructor, where every node of the scene so far was added
    with it. *)
Definition Scene_pose_written (self : Scene F) (M : matrix F) : Scene F :=
  {| bg_color := bg_color self; ambient_light := ambient_light self;
     nodes :=
       (fun n => {| node_id := node_id n; node_name := node_name n; mesh := mesh n;
                    light := light n; camera := camera n; pose := Some M |})
       <$> nodes self;
     allocated := allocated self |}.

(** A scene that has grown from [sc0]: a node is stored under its own
    identity, below the number of nodes constructed, and the first three
    nodes are those of [sc0]. *)
Definition scene_ok (sc0 sc : Scene F) : Prop :=
  (forall k n, nodes sc !! k = Some n -> (k < allocated sc)%nat /\ node_id n = k)
  /\ (forall k, (k < 3)%nat -> nodes sc !! k = nodes sc0 !! k)
  /\ (3 <= allocated sc)%nat.

(** Nodes kept track of: each is in the scene and is none of the first
    three, and none is kept twice. *)
Definition tracking_ok (sc : Scene F) (T : list (Node F)) : Prop :=
  (forall n, n ∈ T -> nodes sc !! node_id n = Some n /\ (3 <= node_id n)%nat)
  /\ NoDup (node_id <$> T).
End SceneGraph.

(** [pyrender.constants.RenderFlags], the two the module uses; a list of them
    is their bitwise or. *)
Inductive RenderFlags : Type := RGBA | ALL_WIREFRAME.

(** ** [class Renderer]: its collaborators, its attributes and the method monad *)

(** What the class calls outside this module: the body model's face table
    ([lib.models.smpl.get_smpl_faces]), trimesh's file input and output,
    [pyrender.Mesh.from_trimesh] (which raises for what it cannot turn into
    primitives: faces that index past the vertices, or what [trimesh.load]
    returned when it is not one mesh), the offscreen rasterizer of a viewport
    ([pyrender.OffscreenRenderer.render], returning colour and depth) and
    pyrender's own perspective camera. *)
Record Collaborators (F : Type) : Type := {
  get_smpl_faces : list (nat * nat * nat);
  trimesh_load : string -> result (Trimesh F);
  trimesh_export : Trimesh F -> string -> result unit;
  from_trimesh : Trimesh F -> MetallicRoughnessMaterial F -> result (Mesh F);
  offscreen_render :
    positive * positive -> Scene F -> list RenderFlags -> result (ndarray * ndarray);
  perspective_projection_matrix : F -> option Z -> option Z -> matrix F
}.
Arguments get_smpl_faces {F} _.
Arguments trimesh_load {F} _ _.
Arguments trimesh_export {F} _ _ _.
Arguments from_trimesh {F} _ _ _.
Arguments offscreen_render {F} _ _ _ _.
Arguments perspective_projection_matrix {F} _ _ _ _.

(** The attributes of a [Renderer].  [resolution] is (width, height), in
    pixels; [whiteBackground] is an attribute only of an instance constructed
    with [renderOnWhite]. *)
Record Renderer (F : Type) : Type := {
  resolution : positive * positive;
  faces : list (nat * nat * nat);
  orig_img : bool;
  wireframe : bool;
  scene : Scene F;
  cam_node : option (Node F);
  camera_pose : matrix F;
  object_nodes : list (Node F);
  human_nodes : list (Node F);
  whiteBackground : option ndarray
}.
Arguments resolution {F} _.
Arguments faces {F} _.
Arguments orig_img {F} _.
Arguments wireframe {F} _.
Arguments scene {F} _.
Arguments cam_node {F} _.
Arguments camera_pose {F} _.
Arguments object_nodes {F} _.
Arguments human_nodes {F} _.
Arguments whiteBackground {F} _.

(** A method body: from the instance to what the call returns or raises and
    the instance it leaves.  A raise keeps the assignments made before it. *)
Definition method (F A : Type) : Type := Renderer F -> result A * Renderer F.

Definition pure {F A} (a : A) : method F A := fun self => (Ok a, self).

Definition andthen {F A B} (m : method F A) (k : A -> method F B) : method F B :=
  fun self =>
    match m self with
    | (Ok a, self') => k a self'
    | (Raise e, self') => (Raise e, self')
    end.

Definition lift {F A} (r : result A) : method F A := fun self => (r, self).

Definition get_self {F} : method F (Renderer F) := fun self => (Ok self, self).

Declare Scope method_scope.
Delimit Scope method_scope with method.
Notation "x <- m ;; k" := (andthen m (fun x => k))
  (at level 100, m at next level, right associativity) : method_scope.

Section Attributes.
Context {F : Type}.

(** [self.scene] after a call on it *)
Definition set_scene (sc : Scene F) : method F unit := fun self =>
  (Ok tt,
   {| resolution := resolution self; faces := faces self; orig_img := orig_img self;
      wireframe := wireframe self; scene := sc; cam_node := cam_node self;
      camera_pose := camera_pose self; object_nodes := object_nodes self;
      human_nodes := human_nodes self; whiteBackground := whiteBackground self |}).

(** [self.cam_node = node] *)
Definition set_cam_node (node : option (Node F)) : method F unit := fun self =>
  (Ok tt,
   {| resolution := resolution self; faces := faces self; orig_img := orig_img self;
      wireframe := wireframe self; scene := scene self; cam_node := node;
      camera_pose := camera_pose self; object_nodes := object_nodes self;
      human_nodes := human_nodes self; whiteBackground := whiteBackground self |}).

(** [self.camera_pose = M] *)
Definition set_camera_pose (M : matrix F) : method F unit := fun self =>
  (Ok tt,
   {| resolution := resolution self; faces := faces self; orig_img := orig_img self;
      wireframe := wireframe self; scene := scene self; cam_node := cam_node self;
      camera_pose := M; object_nodes := object_nodes self;
      human_nodes := human_nodes self; whiteBackground := whiteBackground self |}).

(** [self.object_nodes.append(node)] and [self.object_nodes.clear()] *)
Definition set_object_nodes (l : list (Node F)) : method F unit := fun self =>
  (Ok tt,
   {| resolution := resolution self; faces := faces self; orig_img := orig_img self;
      wireframe := wireframe self; scene := scene self; cam_node := cam_node self;
      camera_pose := camera_pose self; object_nodes := l;
      human_nodes := human_nodes self; whiteBackground := whiteBackground self |}).

(** [self.human_nodes.append(node)] and [self.human_nodes.clear()] *)
Definition set_human_nodes (l : list (Node F)) : method F unit := fun self =>
  (Ok tt,
   {| resolution := resolution self; faces := faces self; orig_img := orig_img self;
      wireframe := wireframe self; scene := scene self; cam_node := cam_node self;
      camera_pose := camera_pose self; object_nodes := object_nodes self;
      human_nodes := l; whiteBackground := whiteBackground self |}).

(** [self.scene.add(obj, name, pose=pose)] *)
Definition scene_add (obj : SceneObject F) (name : option string)
    (pose : option (matrix F)) : method F (Node F) := fun self =>
  let added := Scene_add (scene self) obj name pose in
  (Ok (fst added), snd (set_scene (snd added) self)).

(** [self.scene.remove_node(node)] *)
Definition scene_remove_node (node : option (Node F)) : method F unit := fun self =>
  let removed := Scene_remove_node (scene self) node in
  (fst removed, snd (set_scene (snd removed) self)).

(** [for n in l: body(n)] *)
Fixpoint for_each {A} (l : list A) (body : A -> method F unit) : method F unit :=
  match l with
  | [] => pure tt
  | n :: l' => (_ <- body n ;; for_each l' body)%method
  end.

(** [RenderFlags.RGBA | RenderFlags.ALL_WIREFRAME] if [self.wireframe],
    else [RenderFlags.RGBA] *)
Definition render_flags_of (self : Renderer F) : list RenderFlags :=
  if wireframe self then [RGBA; ALL_WIREFRAME] else [RGBA].
End Attributes.

(** ** [class Renderer]: the methods *)

Section Methods.
Context {F : Type} {SF : Scalar F} {LF : Libm F} (env : Collaborators F).
Local Open Scope method_scope.

(** [pyrender.camera.DEFAULT_Z_NEAR], 0.05 *)
Definition DEFAULT_Z_NEAR : F := fdiv (lit 1) (lit 20).

(** [WeakPerspectiveCamera(scale=[sx, sy], translation=[tx, ty], zfar=1000.)]
    after [sx, sy, tx, ty = cam] *)
Definition camera_of (cam : F * F * F * F) : WeakPerspectiveCamera F :=
  let '(sx, sy, tx, ty) := cam in
  {| scale := (sx, sy); translation := (tx, ty);
     znear := DEFAULT_Z_NEAR; zfar := Some (lit 1000); name := None |}.

(** [pyrender.MetallicRoughnessMaterial(metallicFactor=0.5, alphaMode='OPAQUE',
    baseColorFactor=(color[0], color[1], color[2], 1.0))] *)
Definition material_of (color : F * F * F) : MetallicRoughnessMaterial F :=
  let '(r, g, b) := color in
  {| metallicFactor := fdiv (lit 1) (lit 2); alphaMode := "OPAQUE";
     baseColorFactor := (r, g, b, lit 1) |}.

(** [self.renderer.render(self.scene, flags=render_flags)] *)
Definition renderer_render (flags : list RenderFlags) : method F (ndarray * ndarray) :=
  fun self => (offscreen_render env (resolution self) (scene self) flags, self).

(** [Renderer.__init__(resolution, orig_img, wireframe, renderOnWhite)].  The
    three lights are one [PointLight] added three times; the pose array
    passed with each is the same object, written between the calls, so the
    lights added before a write have the written pose too. *)
Definition Renderer_init (resolution : positive * positive)
    (orig_img wireframe renderOnWhite : bool) : Renderer F :=
  let scene :=
    {| bg_color := (lit 0, lit 0, lit 0, lit 0);
       ambient_light := (fdiv (lit 3) (lit 10), fdiv (lit 3) (lit 10), fdiv (lit 3) (lit 10));
       nodes := ∅; allocated := 0 |} in
  let light := {| color := (lit 1, lit 1, lit 1); intensity := lit 1 |} in
  let light_pose := np_eye 4 in
  let light_pose := set_translation light_pose (lit 0, lit (-1), lit 1) in
  let scene := snd (Scene_add scene (ALight light) None (Some light_pose)) in
  let light_pose := set_translation light_pose (lit 0, lit 1, lit 1) in
  let scene := Scene_pose_written scene light_pose in
  let scene := snd (Scene_add scene (ALight light) None (Some light_pose)) in
  let light_pose := set_translation light_pose (lit 1, lit 1, lit 2) in
  let scene := Scene_pose_written scene light_pose in
  let scene := snd (Scene_add scene (ALight light) None (Some light_pose)) in
  {| resolution := resolution;
     faces := get_smpl_faces env;
     orig_img := orig_img;
     wireframe := wireframe;
     scene := scene;
     cam_node := None;
     camera_pose := np_eye 4;
     object_nodes := [];
     human_nodes := [];
     whiteBackground :=
       if renderOnWhite
       then Some (np_full (Pos.to_nat (snd resolution), Pos.to_nat (fst resolution), 3%nat) 255)
       else None |}.

(** [Renderer.render(img, verts, cam, angle, axis, mesh_filename, color)] *)
Definition render (img : ndarray) (verts : list (F * F * F)) (cam : F * F * F * F)
    (angle : option F) (axis : option (F * F * F)) (mesh_filename : option string)
    (color : F * F * F) : method F ndarray :=
  self <- get_self ;;
  let mesh := {| vertices := verts; mesh_faces := faces self; applied := [] |} in
  let Rx := rotation_matrix (math_radians (lit 180)) (lit 1, lit 0, lit 0) in
  let mesh := apply_transform mesh Rx in
  _ <- match mesh_filename with
       | Some f => lift (trimesh_export env mesh f)
       | None => pure tt
       end ;;
  let mesh :=
    match angle, axis with
    | Some angle, Some axis =>
        if feqb angle (lit 0) then mesh
        else apply_transform mesh (rotation_matrix (math_radians angle) axis)
    | _, _ => mesh
    end in
  let camera := camera_of cam in
  let material := material_of color in
  mesh <- lift (from_trimesh env mesh material) ;;
  mesh_node <- scene_add (AMesh mesh) (Some "mesh") None ;;
  _ <- set_camera_pose (np_eye 4) ;;
  cam_node <- scene_add (ACamera (Weak camera)) None (Some (np_eye 4)) ;;
  rgb_depth <- renderer_render (render_flags_of self) ;;
  let rgb := fst rgb_depth in
  image <- lift (composite rgb img) ;;
  _ <- scene_remove_node (Some mesh_node) ;;
  _ <- scene_remove_node (Some cam_node) ;;
  pure image.

(** The [R] of [render_obj]:
<<
    R = trimesh.transformations.rotation_matrix(math.radians(angle), axis)
>> *)
Definition render_obj_rotation (angle : F) (axis : F * F * F) : matrix F :=
  rotation_matrix (math_radians angle) axis.

(** [Renderer.render_obj(img, mesh_file, cam, translation, angle, axis, scale,
    color)] *)
Definition render_obj (img : ndarray) (mesh_file : string) (cam : F * F * F * F)
    (translation : F * F * F) (angle : F) (axis : F * F * F) (scale : F * F * F)
    (color : F * F * F) : method F ndarray :=
  self <- get_self ;;
  mesh <- lift (trimesh_load env mesh_file) ;;
  let origin := (lit 0, lit 0, lit 0) in
  let Sx := scale_matrix (fst (fst scale)) origin (lit 1, lit 0, lit 0) in
  let Sy := scale_matrix (snd (fst scale)) origin (lit 0, lit 1, lit 0) in
  let Sz := scale_matrix (snd scale) origin (lit 0, lit 0, lit 1) in
  let R := render_obj_rotation angle axis in
  let T := translation_matrix translation in
  let mesh := apply_transform mesh Sx in
  let mesh := apply_transform mesh Sy in
  let mesh := apply_transform mesh Sz in
  let mesh := apply_transform mesh R in
  let mesh := apply_transform mesh T in
  let Rx := rotation_matrix math_pi (lit 1, lit 0, lit 0) in
  let mesh := apply_transform mesh Rx in
  let camera := camera_of cam in
  let material := material_of color in
  mesh <- lift (from_trimesh env mesh material) ;;
  mesh_node <- scene_add (AMesh mesh) (Some "mesh") None ;;
  _ <- set_camera_pose (np_eye 4) ;;
  cam_node <- scene_add (ACamera (Weak camera)) None (Some (np_eye 4)) ;;
  rgb_depth <- renderer_render (render_flags_of self) ;;
  let rgb := fst rgb_depth in
  image <- lift (composite rgb img) ;;
  _ <- scene_remove_node (Some mesh_node) ;;
  _ <- scene_remove_node (Some cam_node) ;;
  pure image.

(** [Renderer.push_cam(cam)] *)
Definition push_cam (cam : F * F * F * F) : method F unit :=
  let camera := camera_of cam in
  _ <- set_camera_pose (np_eye 4) ;;
  node <- scene_add (ACamera (Weak camera)) None (Some (np_eye 4)) ;;
  set_cam_node (Some node).

(** [Renderer.push_default_cam()]: [yfov=np.pi / 3.0] *)
Definition push_default_cam : method F unit :=
  let camera := PerspectiveCamera (fdiv math_pi (lit 3)) in
  _ <- set_camera_pose (np_eye 4) ;;
  node <- scene_add (ACamera camera) None (Some (np_eye 4)) ;;
  set_cam_node (Some node).
(** [camera.get_projection_matrix(width, height)], by the camera's class *)
Definition camera_projection_matrix (c : Camera F) (width height : option Z) : matrix F :=
  match c with
  | Weak c => get_projection_matrix c width height
  | PerspectiveCamera yfov => perspective_projection_matrix env yfov width height
  end.

(** [Renderer.screenspace_to_worldspace(screenXCoords, screenYCoords)]; the
    two [print] calls are left out.  An attribute of [None] is an
    [AttributeError]. *)
Definition screenspace_to_worldspace (screenXCoords screenYCoords : F)
    : method F (list F) :=
  self <- get_self ;;
  let width := Zpos (fst (resolution self)) in
  let height := Zpos (snd (resolution self)) in
  node <- match cam_node self with
          | Some node => pure node
          | None => lift (Raise "AttributeError")
          end ;;
  camera <- match camera node with
            | Some camera => pure camera
            | None => lift (Raise "AttributeError")
            end ;;
  let projMatrix := camera_projection_matrix camera (Some width) (Some height) in
  let ndc_coords :=
    [ fsub (fmul (fdiv screenXCoords (lit width)) (lit 2)) (lit 1);
      fsub (fmul (fdiv screenYCoords (lit height)) (lit 2)) (lit 1);
      lit 0;
      lit 1 ] in
  windowSpcToWorldSpc <- lift (np_linalg_inv projMatrix) ;;
  pure (matvec windowSpcToWorldSpc ndc_coords).

(** [Renderer.push_human(verts, color)] *)
Definition push_human (verts : list (F * F * F)) (color : F * F * F) : method F unit :=
  self <- get_self ;;
  let mesh := {| vertices := verts; mesh_faces := faces self; applied := [] |} in
  let Rx := rotation_matrix math_pi (lit 1, lit 0, lit 0) in
  let mesh := apply_transform mesh Rx in
  let material := material_of color in
  mesh <- lift (from_trimesh env mesh material) ;;
  node <- scene_add (AMesh mesh) None None ;;
  self <- get_self ;;
  set_human_nodes (human_nodes self ++ [node]).

(** The [R] of [push_obj]:
<<
    # prevent divide by zero error when angle is 0
    if angle == 0:
        R = trimesh.transformations.identity_matrix()
    else:
        R = trimesh.transformations.rotation_matrix(math.radians(angle), axis)
>> *)
Definition push_obj_rotation (angle : F) (axis : F * F * F) : matrix F :=
  if feqb angle (lit 0) then identity_matrix
  else rotation_matrix (math_radians angle) axis.

(** [Renderer.push_obj(mesh_file, translation, angle, axis, scale, color)] *)
Definition push_obj (mesh_file : string) (translation : F * F * F) (angle : F)
    (axis : F * F * F) (scale : F * F * F) (color : F * F * F) : method F unit :=
  mesh <- lift (trimesh_load env mesh_file) ;;
  let origin := (lit 0, lit 0, lit 0) in
  let Sx := scale_matrix (fst (fst scale)) origin (lit 1, lit 0, lit 0) in
  let Sy := scale_matrix (snd (fst scale)) origin (lit 0, lit 1, lit 0) in
  let Sz := scale_matrix (snd scale) origin (lit 0, lit 0, lit 1) in
  let R := push_obj_rotation angle axis in
  let T := translation_matrix translation in
  let Rx := rotation_matrix math_pi (lit 1, lit 0, lit 0) in
  let mesh := apply_transform mesh Sx in
  let mesh := apply_transform mesh Sy in
  let mesh := apply_transform mesh Sz in
  let mesh := apply_transform mesh R in
  let mesh := apply_transform mesh T in
  let mesh := apply_transform mesh Rx in
  let material := material_of color in
  mesh <- lift (from_trimesh env mesh material) ;;
  node <- scene_add (AMesh mesh) None None ;;
  self <- get_self ;;
  set_object_nodes (object_nodes self ++ [node]).

(** [Renderer.pop_and_render(img=None)] *)
Definition pop_and_render (img : option ndarray) : method F ndarray :=
  self <- get_self ;;
  let render_flags := render_flags_of self in
  img <- match img with
         | Some img => pure img
         | None =>
             match whiteBackground self with
             | Some white => pure white
             | None => lift (Raise "AttributeError")
             end
         end ;;
  rgb_depth <- renderer_render render_flags ;;
  let rgb := fst rgb_depth in
  image <- lift (composite rgb img) ;;
  _ <- scene_remove_node (cam_node self) ;;
  _ <- for_each (object_nodes self) (fun n => scene_remove_node (Some n)) ;;
  _ <- for_each (human_nodes self) (fun n => scene_remove_node (Some n)) ;;
  _ <- set_cam_node None ;;
  _ <- set_object_nodes [] ;;
  _ <- set_human_nodes [] ;;
  pure image.
(** *** Sessions

    A call of one of the public methods on an instance, and the instance a
    sequence of calls leaves, whether they return or raise. *)
Inductive Call : Type :=
| call_render (img : ndarray) (verts : list (F * F * F)) (cam : F * F * F * F)
    (angle : option F) (axis : option (F * F * F)) (mesh_filename : option string)
    (color : F * F * F)
| call_render_obj (img : ndarray) (mesh_file : string) (cam : F * F * F * F)
    (translation : F * F * F) (angle : F) (axis : F * F * F) (scale : F * F * F)
    (color : F * F * F)
| call_push_cam (cam : F * F * F * F)
| call_push_default_cam
| call_screenspace_to_worldspace (screenXCoords screenYCoords : F)
| call_push_human (verts : list (F * F * F)) (color : F * F * F)
| call_push_obj (mesh_file : string) (translation : F * F * F) (angle : F)
    (axis : F * F * F) (scale : F * F * F) (color : F * F * F)
| call_pop_and_render (img : option ndarray).

Definition state_after (c : Call) (self : Renderer F) : Renderer F :=
  match c with
  | call_render img verts cam angle axis mesh_filename color =>
      snd (render img verts cam angle axis mesh_filename color self)
  | call_render_obj img mesh_file cam translation angle axis scale color =>
      snd (render_obj img mesh_file cam translation angle axis scale color self)
  | call_push_cam cam => snd (push_cam cam self)
  | call_push_default_cam => snd (push_default_cam self)
  | call_screenspace_to_worldspace x y => snd (screenspace_to_worldspace x y self)
  | call_push_human verts color => snd (push_human verts color self)
  | call_push_obj mesh_file translation angle axis scale color =>
      snd (push_obj mesh_file translation angle axis scale color self)
  | call_pop_and_render img => snd (pop_and_render img self)
  end.

Definition session (calls : list Call) (self : Renderer F) : Renderer F :=
  fold_left (fun self c => state_after c self) calls self.

(** The nodes an instance keeps track of. *)
Definition tracked (self : Renderer F) : list (Node F) :=
  option_list (cam_node self) ++ object_nodes self ++ human_nodes self.
(** The tracked nodes and the nodes of the scene of [self'] are those of
    [self]. *)
Definition restored (self self' : Renderer F) : Prop :=
  cam_node self' = cam_node self
  /\ object_nodes self' = object_nodes self
  /\ human_nodes self' = human_nodes self
  /\ nodes (scene self') = nodes (scene self).

(** The background [pop_and_render] composites over: the argument, or the
    white canvas when it is omitted and there is one. *)
Definition background_of (self : Renderer F) (img : option ndarray) : option ndarray :=
  match img with
  | Some img => Some img
  | None => whiteBackground self
  end.

(** What every instance reached from [init] satisfies: its scene has grown
    from the one [init] has, the nodes it tracks are in the scene, and the
    attributes set at construction are unchanged. *)
Record session_inv (init self : Renderer F) : Prop := {
  inv_scene : scene_ok (scene init) (scene self);
  inv_tracking : tracking_ok (scene self) (tracked self);
  inv_white : whiteBackground self = whiteBackground init;
  inv_resolution : resolution self = resolution init;
  inv_wireframe : wireframe self = wireframe init
}.
End Methods.

(** ** Sessions: what the statements about them are written with *)

Section Protocol.
Context {F : Type} {SF : Scalar F} {LF : Libm F} (env : Collaborators F).
Local Open Scope method_scope.

(** What [render] and [render_obj] do once the mesh and the camera are
    built: the same lines in both, from [mesh_node = self.scene.add(mesh,
    'mesh')] to [return image]. *)
Definition insert_render_remove (img : ndarray) (mesh : Mesh F)
    (camera : WeakPerspectiveCamera F) (flags : list RenderFlags) : method F ndarray :=
  mesh_node <- scene_add (AMesh mesh) (Some "mesh") None ;;
  _ <- set_camera_pose (np_eye 4) ;;
  cam_node <- scene_add (ACamera (Weak camera)) None (Some (np_eye 4)) ;;
  rgb_depth <- renderer_render env flags ;;
  let rgb := fst rgb_depth in
  image <- lift (composite rgb img) ;;
  _ <- scene_remove_node (Some mesh_node) ;;
  _ <- scene_remove_node (Some cam_node) ;;
  pure image.

(** The scene while [render] and [render_obj] rasterize: that of [self] with
    a node for the mesh, named 'mesh', and a node for the camera, added in
    this order. *)
Definition scene_during (self : Renderer F) (m : Mesh F) (cam : F * F * F * F) : Scene F :=
  let with_mesh := snd (Scene_add (scene self) (AMesh m) (Some "mesh") None) in
  snd (Scene_add with_mesh (ACamera (Weak (camera_of cam))) None (Some (np_eye 4))).

(** What a single-shot call on [self] with the background [img] gives, [r],
    once its mesh [m] is made.  Two nodes are inserted, and the scene with
    them is rasterized.  When the rasterizer and the compositing step
    succeed the call returns the composited image and the tracked nodes and
    the nodes of the scene are as before the call; when one of them raises,
    the call raises the same and the scene is left with the two nodes. *)
Definition self_contained (self : Renderer F) (img : ndarray) (m : Mesh F)
    (cam : F * F * F * F) (r : result ndarray * Renderer F) : Prop :=
  let during := scene_during self m cam in
  size (nodes during) = S (S (size (nodes (scene self))))
  /\ match offscreen_render env (resolution self) during (render_flags_of self) with
     | Ok rgb_depth =>
         match composite (fst rgb_depth) img with
         | Ok image => fst r = Ok image /\ restored self (snd r)
         | Raise e =>
             fst r = Raise e /\ scene (snd r) = during /\ tracked (snd r) = tracked self
         end
     | Raise e =>
         fst r = Raise e /\ scene (snd r) = during /\ tracked (snd r) = tracked self
     end.

(** A call of [push_human] or [push_obj]. *)
Definition pushes_geometry (c : @Call F) : bool :=
  match c with
  | call_push_human _ _ => true
  | call_push_obj _ _ _ _ _ _ => true
  | _ => false
  end.

(** A call of [push_cam] or [push_default_cam]. *)
Definition pushes_camera (c : @Call F) : bool :=
  match c with
  | call_push_cam _ => true
  | call_push_default_cam => true
  | _ => false
  end.

(** A map of nodes without the nodes of a list. *)
Definition without (l : list (Node F)) (m : gmap nat (Node F)) : gmap nat (Node F) :=
  fold_left (fun m n => delete (node_id n) m) l m.

(** The nodes of the scene that the instance does not keep track of: no
    attribute of the instance refers to them, and [pop_and_render] removes
    none of them. *)
Definition untracked (self : Renderer F) : gmap nat (Node F) :=
  without (tracked self) (nodes (scene self)).

(** A node that is in the scene of [self], tracked by nothing. *)
Definition stray (n : Node F) (self : Renderer F) : Prop :=
  nodes (scene self) !! node_id n = Some n /\ n ∉ tracked self.

(** Two nodes, a mesh and a camera, that the scene of [self] did not have
    are stray in [self'] and in every instance reached from it. *)
Definition leaked (self self' : Renderer F) : Prop :=
  exists n1 n2,
    is_Some (mesh n1) /\ is_Some (camera n2) /\ node_id n1 <> node_id n2
    /\ nodes (scene self) !! node_id n1 = None
    /\ nodes (scene self) !! node_id n2 = None
    /\ forall more, stray n1 (session env more self') /\ stray n2 (session env more self').
End Protocol.

(** ** Collaborators that answer deterministically

    A rasterizer that returns the same raster for every scene, one opaque
    pixel of alpha 128 at the top left of a transparent frame; a mesh file
    that loads as one triangle; sine and cosine by their first Taylor terms. *)

Definition raster_of (viewport : positive * positive) : ndarray :=
  {| shape := (Pos.to_nat (snd viewport), Pos.to_nat (fst viewport), 4%nat);
     item := fun i j k =>
       match i, j with
       | O, O => match k with 0%nat => 200 | 1%nat => 100 | 2%nat => 50 | _ => 128 end
       | _, _ => 0
       end |}.

Definition depth_of (viewport : positive * positive) : ndarray :=
  np_full (Pos.to_nat (snd viewport), Pos.to_nat (fst viewport), 1%nat) 0.

Definition triangle : Trimesh float :=
  {| vertices := [(0, 0, 0); (1, 0, 0); (0, 1, 0)]%float;
     mesh_faces := [(0, 1, 2)%nat];
     applied := [] |}.

Definition taylor_sin (x : float) : float := (x - x * x * x / 6)%float.
Definition taylor_cos (x : float) : float := (1 - x * x / 2)%float.

#[export] Instance taylor_math : Libm float := float64_math taylor_sin taylor_cos.

Definition stub : Collaborators float :=
  {| get_smpl_faces := [(0, 1, 2)%nat];
     trimesh_load := fun _ => Ok triangle;
     trimesh_export := fun _ _ => Ok tt;
     from_trimesh := fun mesh material => Ok {| primitive := mesh; material := material |};
     offscreen_render := fun viewport _ _ => Ok (raster_of viewport, depth_of viewport);
     perspective_projection_matrix := fun _ _ _ => np_eye 4 |}.

(** A session of four pushes: a camera, two humans and an object. *)
Definition two_humans_one_object : list (@Call float) :=
  [ call_push_cam (1, 1, 0, 0)%float;
    call_push_human [(0, 0, 0); (1, 0, 0); (0, 1, 0)]%float (1, 1, 0.5)%float;
    call_push_human [(0, 0, 1); (1, 0, 1); (0, 1, 1)]%float (1, 1, 0.5)%float;
    call_push_obj "chair.obj" (0, 0, 0)%float 0%float (1, 0, 0)%float (1, 1, 1)%float
      (0.25, 1, 0.25)%float ].

(** The same collaborators over the exact rationals, and an instance armed
    with the camera (2, 3, 5, 7) at the default resolution. *)
Definition exact_stub : Collaborators Qc :=
  {| get_smpl_faces := [(0, 1, 2)%nat];
     trimesh_load := fun _ => Raise "ValueError";
     trimesh_export := fun _ _ => Ok tt;
     from_trimesh := fun mesh material => Ok {| primitive := mesh; material := material |};
     offscreen_render := fun viewport _ _ => Ok (raster_of viewport, depth_of viewport);
     perspective_projection_matrix := fun _ _ _ => np_eye 4 |}.


(** Collaborators that fail: no mesh file loads and the rasterizer raises. *)
Definition offline : Collaborators float :=
  {| get_smpl_faces := [(0, 1, 2)%nat];
     trimesh_load := fun _ => Raise "ValueError";
     trimesh_export := fun _ _ => Ok tt;
     from_trimesh := fun mesh material => Ok {| primitive := mesh; material := material |};
     offscreen_render := fun _ _ _ => Raise "GLError";
     perspective_projection_matrix := fun _ _ _ => np_eye 4 |}.

(** * Properties *)

(** ** The camera matrix *)

Section CameraFacts.
Context {F : Type} {SF : Scalar F}.

Lemma get_projection_matrix_entries (self : WeakPerspectiveCamera F) width height :
  get_projection_matrix self width height =
    [ [ fst (scale self); lit 0; lit 0; fmul (fst (translation self)) (fst (scale self)) ];
      [ lit 0; snd (scale self); lit 0;
        fmul (fneg (snd (translation self))) (snd (scale self)) ];
      [ lit 0; lit 0; lit (-1); lit 0 ];
      [ lit 0; lit 0; lit 0; lit 1 ] ].
Proof. reflexivity. Qed.

(** C1: for every scale pair and translation pair the projection matrix of the
    weak-perspective camera is the identity except [P[0][0] = scaleX],
    [P[1][1] = scaleY], [P[0][3] = transX * scaleX],
    [P[1][3] = -transY * scaleY] and [P[2][2] = -1]; two cameras that differ
    only in [znear], [zfar] (and name, and the viewport passed) have the same
    matrix. *)
Theorem get_projection_matrix_spec (scaleX scaleY transX transY : F)
    (zNear zNear' : F) (zFar zFar' : option F) (name name' : option string)
    (width height width' height' : option Z) :
  let cam := {| scale := (scaleX, scaleY); translation := (transX, transY);
                znear := zNear; zfar := zFar; name := name |} in
  let cam' := {| scale := (scaleX, scaleY); translation := (transX, transY);
                 znear := zNear'; zfar := zFar'; name := name' |} in
  get_projection_matrix cam width height =
    [ [ scaleX; lit 0; lit 0; fmul transX scaleX ];
      [ lit 0; scaleY; lit 0; fmul (fneg transY) scaleY ];
      [ lit 0; lit 0; lit (-1); lit 0 ];
      [ lit 0; lit 0; lit 0; lit 1 ] ]
  /\ get_projection_matrix cam' width' height' = get_projection_matrix cam width height
  /\ forall i j : nat,
       (i, j) <> (0, 0)%nat -> (i, j) <> (1, 1)%nat -> (i, j) <> (0, 3)%nat ->
       (i, j) <> (1, 3)%nat -> (i, j) <> (2, 2)%nat ->
       getitem (get_projection_matrix cam width height) i j = getitem (np_eye 4) i j.
Proof.
  intros cam cam'. split; [reflexivity | split; [reflexivity |]].
  intros i j H00 H11 H03 H13 H22.
  do 4 (destruct i as [|i]; [do 4 (destruct j as [|j]; [first [reflexivity | congruence] |]); reflexivity |]).
  reflexivity.
Qed.
End CameraFacts.

(** ** The compositing step *)

Lemma bidx_in_range (extent i : nat) : (i < extent)%nat -> bidx extent i = i.
Proof.
  intros Hi. unfold bidx. destruct (Nat.eqb_spec extent 1) as [-> | _]; [lia | reflexivity].
Qed.

Lemma broadcast_dim_same (a : nat) : broadcast_dim a a = Ok a.
Proof. unfold broadcast_dim. now rewrite Nat.eqb_refl. Qed.

Lemma broadcast_dim_one_r (a : nat) : broadcast_dim a 1 = Ok a.
Proof.
  unfold broadcast_dim. destruct (Nat.eqb_spec a 1) as [-> | _]; [reflexivity |].
  reflexivity.
Qed.

Lemma broadcast_dim_one_l (a : nat) : broadcast_dim 1 a = Ok a.
Proof.
  unfold broadcast_dim. destruct (Nat.eqb_spec 1 a) as [<- | _]; reflexivity.
Qed.

Lemma broadcast_dim_compatible (a b : nat) :
  compatible a b -> exists d, broadcast_dim a b = Ok d /\ (d = a \/ d = b).
Proof.
  intros [-> | [-> | ->]].
  - exists b. rewrite broadcast_dim_same. auto.
  - exists b. rewrite broadcast_dim_one_l. auto.
  - exists a. rewrite broadcast_dim_one_r. auto.
Qed.

(** C2: for an RGBA raster and a background of the same height and width, the
    compositing step returns an image of that size whose every pixel is the
    raster's RGB where the raster's alpha is greater than 0 and the
    background's RGB, as 8-bit unsigned, elsewhere; a pixel of alpha 128 is the
    raster's RGB unchanged. *)
Theorem composite_hard_threshold (rgb img : ndarray) (h w : nat) :
  shape rgb = (h, w, 4%nat) ->
  shape img = (h, w, 3%nat) ->
  (forall i j k, (i < h)%nat -> (j < w)%nat -> (k < 4)%nat -> 0 <= item rgb i j k < 256) ->
  exists image,
    composite rgb img = Ok image
    /\ shape image = (h, w, 3%nat)
    /\ forall i j k, (i < h)%nat -> (j < w)%nat -> (k < 3)%nat ->
         item image i j k =
           (if 0 <? item rgb i j 3 then item rgb i j k else item img i j k mod 256)
         /\ (item rgb i j 3 = 128 -> item image i j k = item rgb i j k).
Proof.
  intros Hrgb Himg Hbyte.
  unfold composite, last_channel_positive, drop_last_channel, np_multiply, np_add,
    elementwise, np_rsub, astype_uint8, bitem.
  rewrite Hrgb, Himg. cbn [Nat.eqb Nat.sub shape item rbind broadcast_shapes].
  repeat first
    [ rewrite broadcast_dim_same
    | rewrite broadcast_dim_one_r
    | rewrite broadcast_dim_one_l
    | progress cbn [rbind shape item broadcast_shapes] ].
  eexists. split; [reflexivity |]. split; [reflexivity |].
  intros i j k Hi Hj Hk. cbn [item].
  rewrite !(bidx_in_range h i), !(bidx_in_range w j), !(bidx_in_range 3 k) by assumption.
  assert (Hk4 : (k < 4)%nat) by lia.
  specialize (Hbyte i j k Hi Hj Hk4).
  destruct (Z.ltb_spec 0 (item rgb i j 3)) as [Hpos | Hzero].
  - replace (item rgb i j k * 1 + (1 - 1) * item img i j k) with (item rgb i j k) by lia.
    rewrite Z.mod_small by lia. split; [reflexivity | intros _; reflexivity].
  - replace (item rgb i j k * 0 + (1 - 0) * item img i j k) with (item img i j k) by lia.
    split; [reflexivity | intros H128; lia].
Qed.

Lemma composite_hard_threshold_witness :
  exists image,
    composite (raster_of (2, 2)%positive) (np_full (2, 2, 3)%nat 255) = Ok image
    /\ shape image = (2, 2, 3)%nat
    /\ forall i j k, (i < 2)%nat -> (j < 2)%nat -> (k < 3)%nat ->
         item image i j k =
           (if 0 <? item (raster_of (2, 2)%positive) i j 3
            then item (raster_of (2, 2)%positive) i j k
            else item (np_full (2, 2, 3)%nat 255) i j k mod 256)
         /\ (item (raster_of (2, 2)%positive) i j 3 = 128 ->
             item image i j k = item (raster_of (2, 2)%positive) i j k).
Proof.
  apply (composite_hard_threshold (raster_of (2, 2)%positive) (np_full (2, 2, 3)%nat 255) 2 2).
  - reflexivity.
  - reflexivity.
  - intros i j k _ _ Hk. unfold raster_of, item.
    destruct i, j; try lia.
    do 4 (destruct k as [|k]; [lia |]). lia.
Defined.

(** A raster of 2 by 2 pixels composited over a background of 1 by 1: the
    sizes differ, and the call returns an image, the background pixel repeated
    under every transparent raster pixel. *)
Lemma composite_broadcasts_background :
  exists image,
    composite (raster_of (2, 2)%positive) (np_full (1, 1, 3)%nat 7) = Ok image
    /\ shape image = (2, 2, 3)%nat
    /\ item image 0 0 0 = 200 /\ item image 1 1 0 = 7
    /\ composite (raster_of (2, 2)%positive) (np_full (1, 1, 3)%nat 7)
         <> Raise "DimensionMismatch".
Proof.
  eexists. split; [reflexivity |]. split; [reflexivity |]. split; [reflexivity |].
  split; [reflexivity | discriminate].
Qed.

(** C7, as the code has it: when the raster and the background differ in
    height or in width and neither of the two differing extents is 1, the
    compositing step raises numpy's [ValueError] and returns no image; when
    each differing extent is 1 on one side, the operands are broadcast and an
    image is returned. *)
Theorem composite_shape_mismatch (rgb img : ndarray) (h w h' w' : nat) :
  shape rgb = (h, w, 4%nat) ->
  shape img = (h', w', 3%nat) ->
  (~ (compatible h h' /\ compatible w w') -> composite rgb img = Raise "ValueError")
  /\ (compatible h h' /\ compatible w w' -> exists image, composite rgb img = Ok image).
Proof.
  intros Hrgb Himg.
  unfold composite, last_channel_positive, drop_last_channel, np_multiply, np_add,
    elementwise, np_rsub, astype_uint8.
  rewrite Hrgb, Himg. cbn [Nat.eqb Nat.sub shape item rbind broadcast_shapes].
  rewrite !broadcast_dim_same, broadcast_dim_one_r, broadcast_dim_one_l.
  cbn [rbind shape].
  split.
  - intros Hbad.
    destruct (broadcast_dim h h') as [d |] eqn:Eh.
    + cbn [rbind].
      destruct (broadcast_dim w w') as [d' |] eqn:Ew.
      * exfalso. apply Hbad. split.
        -- unfold broadcast_dim in Eh. unfold compatible.
           destruct (Nat.eqb_spec h h'); [tauto |].
           destruct (Nat.eqb_spec h 1); [tauto |].
           destruct (Nat.eqb_spec h' 1); [tauto | discriminate].
        -- unfold broadcast_dim in Ew. unfold compatible.
           destruct (Nat.eqb_spec w w'); [tauto |].
           destruct (Nat.eqb_spec w 1); [tauto |].
           destruct (Nat.eqb_spec w' 1); [tauto | discriminate].
      * destruct (Nat.eqb_spec w w') as [-> | Hw].
        { rewrite broadcast_dim_same in Ew. discriminate. }
        unfold broadcast_dim in Ew.
        destruct (w =? w')%nat, (w =? 1)%nat, (w' =? 1)%nat; try discriminate.
        injection Ew as <-. reflexivity.
    + unfold broadcast_dim in Eh.
      destruct (h =? h')%nat, (h =? 1)%nat, (h' =? 1)%nat; try discriminate.
      injection Eh as <-. reflexivity.
  - intros [Hh Hw].
    destruct (broadcast_dim_compatible h h' Hh) as (dh & -> & Hdh).
    destruct (broadcast_dim_compatible w w' Hw) as (dw & -> & Hdw).
    cbn [rbind shape item broadcast_shapes].
    assert (Hh2 : exists d, broadcast_dim h dh = Ok d).
    { destruct Hdh as [-> | ->]; [rewrite broadcast_dim_same; eauto |].
      destruct (broadcast_dim_compatible h h' Hh) as (d & -> & _). eauto. }
    assert (Hw2 : exists d, broadcast_dim w dw = Ok d).
    { destruct Hdw as [-> | ->]; [rewrite broadcast_dim_same; eauto |].
      destruct (broadcast_dim_compatible w w' Hw) as (d & -> & _). eauto. }
    destruct Hh2 as (d1 & ->). destruct Hw2 as (d2 & ->).
    cbn [rbind]. rewrite broadcast_dim_same. cbn [rbind]. eauto.
Qed.

Lemma composite_shape_mismatch_witness :
  (~ (compatible 2 3 /\ compatible 2 2) ->
     composite (raster_of (2, 2)%positive) (np_full (3, 2, 3)%nat 7) = Raise "ValueError")
  /\ (compatible 2 3 /\ compatible 2 2 ->
     exists image, composite (raster_of (2, 2)%positive) (np_full (3, 2, 3)%nat 7) = Ok image).
Proof.
  apply (composite_shape_mismatch (raster_of (2, 2)%positive) (np_full (3, 2, 3)%nat 7) 2 2 3 2);
    reflexivity.
Defined.

(** ** The scene graph *)

Section SceneFacts.
Context {F : Type}.
Implicit Types (sc : Scene F) (n : Node F) (T : list (Node F)).

Lemma Scene_add_id sc obj name pose :
  node_id (fst (Scene_add sc obj name pose)) = allocated sc.
Proof. reflexivity. Qed.

Lemma Scene_add_nodes sc obj name pose :
  nodes (snd (Scene_add sc obj name pose))
  = <[allocated sc := fst (Scene_add sc obj name pose)]> (nodes sc).
Proof. reflexivity. Qed.

Lemma Scene_add_allocated sc obj name pose :
  allocated (snd (Scene_add sc obj name pose)) = S (allocated sc).
Proof. reflexivity. Qed.

Lemma Scene_remove_nodes sc n :
  nodes (snd (Scene_remove_node sc (Some n))) = delete (node_id n) (nodes sc).
Proof.
  unfold Scene_remove_node. destruct (nodes sc !! node_id n) eqn:E; cbn.
  - reflexivity.
  - symmetry. now apply delete_id.
Qed.

Lemma Scene_remove_allocated sc (node : option (Node F)) :
  allocated (snd (Scene_remove_node sc node)) = allocated sc.
Proof.
  unfold Scene_remove_node. destruct node as [n |]; [| reflexivity].
  destruct (nodes sc !! node_id n); reflexivity.
Qed.

Lemma Scene_remove_None sc : Scene_remove_node sc None = (Raise "NetworkXError", sc).
Proof. reflexivity. Qed.

Lemma Scene_remove_present sc n :
  is_Some (nodes sc !! node_id n) -> fst (Scene_remove_node sc (Some n)) = Ok tt.
Proof. intros [x Hx]. unfold Scene_remove_node. now rewrite Hx. Qed.

Lemma scene_ok_fresh sc0 sc k :
  scene_ok sc0 sc -> (allocated sc <= k)%nat -> nodes sc !! k = None.
Proof.
  intros (Hids & _ & _) Hk. destruct (nodes sc !! k) as [n |] eqn:E; [| reflexivity].
  apply Hids in E. lia.
Qed.

Lemma scene_ok_add sc0 sc obj name pose :
  scene_ok sc0 sc -> scene_ok sc0 (snd (Scene_add sc obj name pose)).
Proof.
  intros (Hids & Hlights & Hthree).
  unfold scene_ok. rewrite Scene_add_nodes, Scene_add_allocated. split; [| split; [| lia]].
  - intros k n Hk. apply lookup_insert_Some in Hk as [[<- <-] | [Hne Hk]].
    + split; [lia | reflexivity].
    + apply Hids in Hk. split; [lia | tauto].
  - intros k Hk. rewrite lookup_insert_ne by lia. auto.
Qed.

Lemma scene_ok_remove sc0 sc n :
  scene_ok sc0 sc -> (3 <= node_id n)%nat ->
  scene_ok sc0 (snd (Scene_remove_node sc (Some n))).
Proof.
  intros (Hids & Hlights & Hthree) Hn.
  unfold scene_ok. rewrite Scene_remove_nodes, Scene_remove_allocated.
  split; [| split; [| lia]].
  - intros k x Hk. apply lookup_delete_Some in Hk as [_ Hk]. auto.
  - intros k Hk. rewrite lookup_delete_ne by lia. auto.
Qed.

Lemma tracking_ok_bound sc0 sc T n :
  scene_ok sc0 sc -> tracking_ok sc T -> n ∈ T -> (3 <= node_id n < allocated sc)%nat.
Proof.
  intros (Hids & _) (Hin & _) Hn. destruct (Hin n Hn) as [Hl ?].
  apply Hids in Hl. lia.
Qed.

Lemma tracking_ok_nil sc : tracking_ok sc [].
Proof.
  split; [intros n Hn; inversion Hn | constructor].
Qed.

Lemma submseteq_NoDup {A} (l k : list A) : l ⊆+ k -> NoDup k -> NoDup l.
Proof.
  intros Hsub Hk. apply submseteq_sublist_r in Hsub as (l' & Hperm & Hsl).
  rewrite Hperm. eapply sublist_NoDup; eauto.
Qed.

Lemma tracking_ok_submseteq sc T T' :
  tracking_ok sc T -> T' ⊆+ T -> tracking_ok sc T'.
Proof.
  intros (Hin & Hnd) Hsub. split.
  - intros n Hn. apply Hin. eapply elem_of_submseteq; eauto.
  - eapply submseteq_NoDup; [| exact Hnd]. now apply fmap_submseteq.
Qed.

Lemma tracking_ok_add sc0 sc T obj name pose :
  scene_ok sc0 sc -> tracking_ok sc T -> tracking_ok (snd (Scene_add sc obj name pose)) T.
Proof.
  intros Hsc HT. split; [| apply HT].
  intros n Hn. pose proof (tracking_ok_bound _ _ _ _ Hsc HT Hn) as Hb.
  destruct HT as (Hin & _). destruct (Hin n Hn) as [Hl H3].
  rewrite Scene_add_nodes, lookup_insert_ne by lia. auto.
Qed.

Lemma tracking_ok_add_cons sc0 sc T obj name pose :
  scene_ok sc0 sc -> tracking_ok sc T ->
  tracking_ok (snd (Scene_add sc obj name pose)) (fst (Scene_add sc obj name pose) :: T).
Proof.
  intros Hsc HT.
  pose proof (tracking_ok_add _ _ _ obj name pose Hsc HT) as (Hin & Hnd).
  split.
  - intros n Hn. apply elem_of_cons in Hn as [-> | Hn]; [| auto].
    rewrite Scene_add_nodes, Scene_add_id, lookup_insert_eq.
    split; [reflexivity | apply Hsc].
  - rewrite fmap_cons. constructor; [| exact Hnd].
    intros Hdup. apply list_elem_of_fmap in Hdup as (n & Hid & Hn).
    pose proof (tracking_ok_bound _ _ _ _ Hsc HT Hn) as Hb.
    rewrite Scene_add_id in Hid. lia.
Qed.

Lemma tracking_ok_remove_other sc T n :
  tracking_ok sc T -> node_id n ∉ node_id <$> T ->
  tracking_ok (snd (Scene_remove_node sc (Some n))) T.
Proof.
  intros (Hin & Hnd) Hn. split; [| exact Hnd].
  intros x Hx. destruct (Hin x Hx) as [Hl H3]. split; [| exact H3].
  rewrite Scene_remove_nodes, lookup_delete_ne; [exact Hl |].
  intros Heq. apply Hn. rewrite Heq. apply list_elem_of_fmap. eauto.
Qed.

Lemma tracking_ok_remove_head sc T n :
  tracking_ok sc (n :: T) ->
  fst (Scene_remove_node sc (Some n)) = Ok tt
  /\ tracking_ok (snd (Scene_remove_node sc (Some n))) T.
Proof.
  intros HT. split.
  - apply Scene_remove_present. destruct HT as (Hin & _).
    destruct (Hin n) as [-> _]; [left | eauto].
  - apply tracking_ok_remove_other.
    + eapply tracking_ok_submseteq; [exact HT |]. apply submseteq_cons. reflexivity.
    + destruct HT as (_ & Hnd). rewrite fmap_cons in Hnd.
      now apply NoDup_cons in Hnd as [? _].
Qed.
(** Two nodes added and then removed leave the nodes of the scene as they
    were. *)
Lemma Scene_add_add_remove_remove sc0 sc obj1 name1 pose1 obj2 name2 pose2 :
  scene_ok sc0 sc ->
  let added1 := Scene_add sc obj1 name1 pose1 in
  let added2 := Scene_add (snd added1) obj2 name2 pose2 in
  let removed1 := Scene_remove_node (snd added2) (Some (fst added1)) in
  let removed2 := Scene_remove_node (snd removed1) (Some (fst added2)) in
  fst removed1 = Ok tt /\ fst removed2 = Ok tt /\ nodes (snd removed2) = nodes sc
  /\ scene_ok sc0 (snd removed2)
  /\ forall T, tracking_ok sc T -> tracking_ok (snd removed2) T.
Proof.
  intros Hsc added1 added2 removed1 removed2.
  assert (Hok : scene_ok sc0 (snd removed2)).
  { subst added1 added2 removed1 removed2.
    apply scene_ok_remove; [apply scene_ok_remove; [now do 2 apply scene_ok_add |] |].
    - rewrite Scene_add_id. apply Hsc.
    - rewrite Scene_add_id, Scene_add_allocated. destruct Hsc as (_ & _ & ?). lia. }
  assert (Htr : forall T, tracking_ok sc T -> tracking_ok (snd removed2) T).
  { intros T HT. subst added1 added2 removed1 removed2.
    assert (Hlt : forall k, k ∈ node_id <$> T -> (k < allocated sc)%nat).
    { intros k Hk. apply list_elem_of_fmap in Hk as (n & -> & Hn).
      pose proof (tracking_ok_bound _ _ _ _ Hsc HT Hn). lia. }
    apply tracking_ok_remove_other; [apply tracking_ok_remove_other |].
    - apply (tracking_ok_add sc0); [now apply scene_ok_add |].
      now apply (tracking_ok_add sc0).
    - rewrite Scene_add_id. intros Hin. apply Hlt in Hin. lia.
    - rewrite Scene_add_id, Scene_add_allocated. intros Hin. apply Hlt in Hin. lia. }
  assert (Hfresh1 : nodes sc !! allocated sc = None)
    by (eapply scene_ok_fresh; [eassumption | lia]).
  assert (Hfresh2 : nodes sc !! S (allocated sc) = None)
    by (eapply scene_ok_fresh; [eassumption | lia]).
  assert (H1 : nodes (snd added2) !! node_id (fst added1) = Some (fst added1)).
  { subst added1 added2. rewrite !Scene_add_nodes, !Scene_add_id, Scene_add_allocated.
    rewrite lookup_insert_ne by lia. apply lookup_insert_eq. }
  assert (H2 : nodes (snd removed1) !! node_id (fst added2) = Some (fst added2)).
  { subst added1 added2 removed1.
    rewrite Scene_remove_nodes, !Scene_add_nodes, !Scene_add_id, Scene_add_allocated.
    rewrite lookup_delete_ne by lia. apply lookup_insert_eq. }
  split; [apply Scene_remove_present; eauto |].
  split; [apply Scene_remove_present; eauto |].
  split; [| split; assumption].
  clear Hok Htr. subst added1 added2 removed1 removed2.
  rewrite !Scene_remove_nodes, !Scene_add_nodes, !Scene_add_id, Scene_add_allocated.
  rewrite delete_insert_ne by lia. rewrite delete_insert_eq.
  rewrite delete_insert_eq.
  rewrite (delete_id (nodes sc) (allocated sc)) by exact Hfresh1.
  apply delete_id, Hfresh2.
Qed.
End SceneFacts.

(** ** Sessions: what every reachable instance satisfies *)

Section SessionFacts.
Context {F : Type} {SF : Scalar F} {LF : Libm F} (env : Collaborators F).

Lemma init_nodes (resolution : positive * positive) (orig_img wireframe renderOnWhite : bool) :
  let init := Renderer_init env resolution orig_img wireframe renderOnWhite in
  allocated (scene init) = 3%nat
  /\ forall k n, nodes (scene init) !! k = Some n ->
       (k < 3)%nat /\ node_id n = k /\ is_Some (light n) /\ mesh n = None /\ camera n = None.
Proof.
  intros init. split; [reflexivity |].
  intros k n. unfold init, Renderer_init, Scene_add, Scene_pose_written.
  cbn [scene nodes allocated snd]. rewrite !fmap_insert, !fmap_empty.
  cbn [node_id node_name mesh light camera pose].
  intros Hk.
  apply lookup_insert_Some in Hk as [[<- <-] | [_ Hk]];
    [cbn; repeat split; first [lia | eauto] |].
  apply lookup_insert_Some in Hk as [[<- <-] | [_ Hk]];
    [cbn; repeat split; first [lia | eauto] |].
  apply lookup_insert_Some in Hk as [[<- <-] | [_ Hk]];
    [cbn; repeat split; first [lia | eauto] |].
  rewrite lookup_empty in Hk. discriminate.
Qed.

Lemma session_inv_init (resolution : positive * positive) (orig_img wireframe renderOnWhite : bool) :
  let init := Renderer_init env resolution orig_img wireframe renderOnWhite in
  session_inv init init.
Proof.
  intros init.
  destruct (init_nodes resolution orig_img wireframe renderOnWhite) as [Ha Hn].
  fold init in Ha, Hn.
  constructor; try reflexivity.
  - split; [| split; [reflexivity | rewrite Ha; lia]].
    intros k n Hk. rewrite Ha. destruct (Hn k n Hk) as (? & ? & _). auto.
  - split.
    + intros n Hin. unfold init, tracked in Hin. cbn in Hin. inversion Hin.
    + unfold init, tracked. cbn. constructor.
Qed.
(** Symbolic execution of a method body down to the collaborators' answers. *)
Ltac run_method :=
  unfold andthen, pure, lift, get_self, scene_add, scene_remove_node, set_scene,
    set_cam_node, set_camera_pose, set_object_nodes, set_human_nodes, renderer_render;
  cbn [fst snd scene cam_node camera_pose object_nodes human_nodes whiteBackground
       resolution wireframe faces orig_img].

(** The same, leaving the removal loops of [pop_and_render] folded. *)
Ltac run_pop :=
  unfold andthen, pure, lift, get_self, set_cam_node, set_object_nodes, set_human_nodes,
    renderer_render;
  cbn [fst snd scene cam_node camera_pose object_nodes human_nodes whiteBackground
       resolution wireframe faces orig_img].

Ltac inv_fields :=
  constructor; unfold tracked in *;
  cbn [fst snd scene cam_node camera_pose object_nodes human_nodes whiteBackground
       resolution wireframe faces orig_img].

Lemma push_cam_inv init self cam :
  session_inv init self -> session_inv init (snd (push_cam cam self)).
Proof.
  intros [Hsc HT Hw Hr Hf]. unfold push_cam. run_method. inv_fields; try assumption.
  - now apply scene_ok_add.
  - unfold tracked. cbn [cam_node object_nodes human_nodes option_list app].
    eapply tracking_ok_submseteq; [eapply tracking_ok_add_cons; eauto |].
    apply submseteq_skip. unfold tracked. apply submseteq_inserts_l. reflexivity.
Qed.
(** [render] and [render_obj], step by step: the export or the load, the
    making of the mesh, and then the lines the two share. *)
Lemma render_steps img verts cam angle axis mesh_filename color (self : Renderer F) :
  exists exported built : Trimesh F,
    vertices built = verts /\ mesh_faces built = faces self
    /\ render env img verts cam angle axis mesh_filename color self
       = match match mesh_filename with
               | Some f => trimesh_export env exported f
               | None => Ok tt
               end with
         | Raise e => (Raise e, self)
         | Ok _ =>
             match from_trimesh env built (material_of color) with
             | Raise e => (Raise e, self)
             | Ok m =>
                 insert_render_remove env img m (camera_of cam) (render_flags_of self) self
             end
         end.
Proof.
  unfold render. cbv beta delta [andthen get_self lift pure] iota zeta.
  exists (apply_transform {| vertices := verts; mesh_faces := faces self; applied := [] |}
            (rotation_matrix (math_radians (lit 180)) (lit 1, lit 0, lit 0))).
  match goal with
  | |- context [from_trimesh env ?built _] => exists built
  end.
  split; [| split].
  - destruct angle as [angle |], axis as [axis |]; try reflexivity.
    now destruct (feqb angle (lit 0)).
  - destruct angle as [angle |], axis as [axis |]; try reflexivity.
    now destruct (feqb angle (lit 0)).
  - destruct mesh_filename as [f |]; [destruct (trimesh_export env _ f) as [[] | e] |];
      try reflexivity; destruct (from_trimesh env _ _); reflexivity.
Qed.

Lemma render_obj_steps img mesh_file cam translation angle axis scale color
    (self : Renderer F) :
  match trimesh_load env mesh_file with
  | Raise e =>
      render_obj env img mesh_file cam translation angle axis scale color self
      = (Raise e, self)
  | Ok loaded =>
      exists built : Trimesh F,
        vertices built = vertices loaded /\ mesh_faces built = mesh_faces loaded
        /\ render_obj env img mesh_file cam translation angle axis scale color self
           = match from_trimesh env built (material_of color) with
             | Raise e => (Raise e, self)
             | Ok m =>
                 insert_render_remove env img m (camera_of cam) (render_flags_of self) self
             end
  end.
Proof.
  unfold render_obj. cbv beta delta [andthen get_self lift pure] iota zeta.
  destruct (trimesh_load env mesh_file) as [loaded | e]; [| reflexivity].
  match goal with
  | |- context [from_trimesh env ?built _] => exists built
  end.
  split; [reflexivity |]. split; [reflexivity |].
  destruct (from_trimesh env _ _); reflexivity.
Qed.

(** A call either raises before it adds anything, leaving the instance as it
    was, or runs the shared lines on some mesh. *)
Lemma render_cases img verts cam angle axis mesh_filename color (self : Renderer F) :
  (exists e, render env img verts cam angle axis mesh_filename color self = (Raise e, self))
  \/ (exists m,
       render env img verts cam angle axis mesh_filename color self
       = insert_render_remove env img m (camera_of cam) (render_flags_of self) self).
Proof.
  destruct (render_steps img verts cam angle axis mesh_filename color self)
    as (exported & built & _ & _ & ->).
  destruct (match mesh_filename with Some f => _ | None => _ end) as [[] | e]; [| eauto].
  destruct (from_trimesh env built _) as [m | e]; eauto.
Qed.

Lemma render_obj_cases img mesh_file cam translation angle axis scale color
    (self : Renderer F) :
  (exists e, render_obj env img mesh_file cam translation angle axis scale color self
             = (Raise e, self))
  \/ (exists m,
       render_obj env img mesh_file cam translation angle axis scale color self
       = insert_render_remove env img m (camera_of cam) (render_flags_of self) self).
Proof.
  pose proof (render_obj_steps img mesh_file cam translation angle axis scale color self)
    as Hsteps.
  destruct (trimesh_load env mesh_file) as [loaded | e]; [| eauto].
  destruct Hsteps as (built & _ & _ & ->).
  destruct (from_trimesh env built _) as [m | e]; eauto.
Qed.

(** The shared lines leave the invariant in every outcome, and on a return
    the tracked nodes and the nodes of the scene as they were. *)
Lemma insert_render_remove_effect init self img m cam flags :
  session_inv init self ->
  let r := insert_render_remove env img m cam flags self in
  session_inv init (snd r) /\ (forall image, fst r = Ok image -> restored self (snd r)).
Proof.
  intros [Hsc HT Hw Hr Hf]. unfold insert_render_remove. run_method.
  set (obj1 := AMesh _); set (obj2 := ACamera _).
  destruct (Scene_add_add_remove_remove _ _ obj1 (Some "mesh") None obj2 None
              (Some (np_eye 4)) Hsc) as (Hremoved1 & Hremoved2 & Hnodes & Hsc4 & HT4).
  cbv zeta in Hremoved1, Hremoved2, Hnodes, Hsc4, HT4.
  specialize (HT4 _ HT).
  pose proof (scene_ok_add _ _ obj1 (Some "mesh") None Hsc) as Hsc1.
  pose proof (tracking_ok_add _ _ _ obj1 (Some "mesh") None Hsc HT) as HT1.
  pose proof (scene_ok_add _ _ obj2 None (Some (np_eye 4)) Hsc1) as Hsc2.
  pose proof (tracking_ok_add _ _ _ obj2 None (Some (np_eye 4)) Hsc1 HT1) as HT2.
  cbn [fst snd].
  destruct (offscreen_render env _ _ _) as [rgb_depth |].
  2: { split; [inv_fields; assumption | discriminate]. }
  destruct (composite _ img) as [image |].
  2: { split; [inv_fields; assumption | discriminate]. }
  rewrite Hremoved1; cbn [fst snd scene]; rewrite Hremoved2; cbn [fst snd scene].
  split; [| intros ? _; unfold restored; cbn [cam_node object_nodes human_nodes scene]; auto].
  inv_fields; assumption.
Qed.

(** [render] and [render_obj] leave the invariant in every outcome, and on a
    return the tracked nodes and the nodes of the scene as they were. *)
Lemma render_effect init self img verts cam angle axis mesh_filename color :
  session_inv init self ->
  let r := render env img verts cam angle axis mesh_filename color self in
  session_inv init (snd r) /\ (forall image, fst r = Ok image -> restored self (snd r)).
Proof.
  intros Hinv.
  destruct (render_cases img verts cam angle axis mesh_filename color self)
    as [(e & ->) | (m & ->)].
  - split; [exact Hinv | discriminate].
  - now apply insert_render_remove_effect.
Qed.

Lemma render_obj_effect init self img mesh_file cam translation angle axis scale color :
  session_inv init self ->
  let r := render_obj env img mesh_file cam translation angle axis scale color self in
  session_inv init (snd r) /\ (forall image, fst r = Ok image -> restored self (snd r)).
Proof.
  intros Hinv.
  destruct (render_obj_cases img mesh_file cam translation angle axis scale color self)
    as [(e & ->) | (m & ->)].
  - split; [exact Hinv | discriminate].
  - now apply insert_render_remove_effect.
Qed.

(** The shared lines are self-contained. *)
Lemma insert_render_remove_outcome init self img m cam :
  session_inv init self ->
  self_contained env self img m cam
    (insert_render_remove env img m (camera_of cam) (render_flags_of self) self).
Proof.
  intros [Hsc HT Hw Hr Hf]. unfold self_contained, scene_during. cbv zeta. split.
  - rewrite !Scene_add_nodes, Scene_add_allocated.
    rewrite !map_size_insert_None; [reflexivity | |].
    + eapply scene_ok_fresh; [eassumption | lia].
    + rewrite lookup_insert_ne by lia. eapply scene_ok_fresh; [eassumption | lia].
  - unfold insert_render_remove. run_method.
    set (obj1 := AMesh _); set (obj2 := ACamera _).
    destruct (Scene_add_add_remove_remove _ _ obj1 (Some "mesh") None obj2 None
                (Some (np_eye 4)) Hsc) as (Hremoved1 & Hremoved2 & Hnodes & _ & _).
    cbv zeta in Hremoved1, Hremoved2, Hnodes.
    cbn [fst snd].
    destruct (offscreen_render env _ _ _) as [rgb_depth | e].
    2: { cbn [fst snd scene]. split; [reflexivity |]. split; reflexivity. }
    destruct (composite _ img) as [image | e].
    2: { cbn [fst snd scene]. split; [reflexivity |]. split; reflexivity. }
    rewrite Hremoved1; cbn [fst snd scene]; rewrite Hremoved2; cbn [fst snd scene].
    split; [reflexivity |].
    unfold restored; cbn [cam_node object_nodes human_nodes scene]; auto.
Qed.

Lemma push_default_cam_inv init self :
  session_inv init self -> session_inv init (snd (push_default_cam self)).
Proof.
  intros [Hsc HT Hw Hr Hf]. unfold push_default_cam. run_method. inv_fields; try assumption.
  - now apply scene_ok_add.
  - cbn [option_list app].
    eapply tracking_ok_submseteq; [eapply tracking_ok_add_cons; eauto |].
    apply submseteq_skip, submseteq_inserts_l. reflexivity.
Qed.

Lemma push_human_inv init self verts color :
  session_inv init self -> session_inv init (snd (push_human env verts color self)).
Proof.
  intros [Hsc HT Hw Hr Hf]. unfold push_human. run_method.
  destruct (from_trimesh env _ _) as [m |].
  2: { cbn. constructor; assumption. }
  inv_fields; try assumption.
  - now apply scene_ok_add.
  - eapply tracking_ok_submseteq; [eapply tracking_ok_add_cons; eauto |].
    rewrite !app_assoc. rewrite <- Permutation_cons_append. reflexivity.
Qed.

Lemma push_obj_inv init self mesh_file translation angle axis scale color :
  session_inv init self ->
  session_inv init (snd (push_obj env mesh_file translation angle axis scale color self)).
Proof.
  intros [Hsc HT Hw Hr Hf]. unfold push_obj. run_method.
  destruct (trimesh_load env mesh_file) as [loaded |].
  2: { cbn. constructor; assumption. }
  cbn [fst snd]. destruct (from_trimesh env _ _) as [m |].
  2: { cbn. constructor; assumption. }
  inv_fields; try assumption.
  - now apply scene_ok_add.
  - eapply tracking_ok_submseteq; [eapply tracking_ok_add_cons; eauto |].
    rewrite <- (app_assoc (object_nodes self)). cbn [app].
    rewrite (app_assoc _ (object_nodes self)), (app_assoc _ (object_nodes self)).
    rewrite <- Permutation_middle. reflexivity.
Qed.

Lemma screenspace_to_worldspace_pure self screenXCoords screenYCoords :
  snd (screenspace_to_worldspace env screenXCoords screenYCoords self) = self.
Proof.
  unfold screenspace_to_worldspace. run_method.
  destruct (cam_node self) as [node |]; [| reflexivity].
  cbn. destruct (camera node) as [camera |]; [| reflexivity].
  cbn. destruct (np_linalg_inv _); reflexivity.
Qed.
(** The removal loop of [pop_and_render] over tracked nodes: it returns,
    only the scene changes, the nodes of the list are gone, and the nodes
    tracked besides are still there. *)
Lemma for_each_remove_tracked init (l rest : list (Node F)) self :
  scene_ok (scene init) (scene self) ->
  tracking_ok (scene self) (l ++ rest) ->
  let r := for_each l (fun n => scene_remove_node (Some n)) self in
  fst r = Ok tt
  /\ snd r = snd (set_scene (scene (snd r)) self)
  /\ scene_ok (scene init) (scene (snd r))
  /\ tracking_ok (scene (snd r)) rest
  /\ (forall k, nodes (scene self) !! k = None -> nodes (scene (snd r)) !! k = None)
  /\ (forall n, n ∈ l -> nodes (scene (snd r)) !! node_id n = None).
Proof.
  revert self. induction l as [| n l IH]; intros self Hsc HT.
  - cbn. split; [reflexivity |]. split; [destruct self; reflexivity |].
    split; [assumption |]. split; [assumption |]. split; [auto |].
    intros n Hn. inversion Hn.
  - cbn [app] in HT.
    destruct (tracking_ok_remove_head _ _ _ HT) as [Hfst HT1].
    pose proof (tracking_ok_bound _ _ _ n Hsc HT ltac:(left)) as Hn3.
    pose proof (scene_ok_remove _ _ n Hsc ltac:(lia)) as Hsc1.
    set (self1 := snd (set_scene (snd (Scene_remove_node (scene self) (Some n))) self)).
    assert (Hstep : for_each (n :: l) (fun n => scene_remove_node (Some n)) self
                    = for_each l (fun n => scene_remove_node (Some n)) self1).
    { cbn [for_each]. unfold andthen, scene_remove_node at 1. cbn [fst snd].
      rewrite Hfst. reflexivity. }
    cbv zeta. rewrite Hstep.
    destruct (IH self1 Hsc1 HT1) as (Hok & Hframe & Hsc2 & HT2 & Hmono & Hgone).
    split; [exact Hok |]. split; [rewrite Hframe at 1; reflexivity |].
    split; [exact Hsc2 |]. split; [exact HT2 |]. split.
    + intros k Hk. apply Hmono. subst self1. cbn [set_scene snd scene].
      rewrite Scene_remove_nodes. apply lookup_delete_None. auto.
    + intros x Hx. apply elem_of_cons in Hx as [-> | Hx]; [| auto].
      apply Hmono. subst self1. cbn [set_scene snd scene].
      rewrite Scene_remove_nodes. apply lookup_delete_eq.
Qed.
Lemma pop_and_render_background self img bg :
  background_of self img = Some bg ->
  pop_and_render env img self = pop_and_render env (Some bg) self.
Proof.
  unfold background_of. destruct img as [img |]; intros Hbg.
  - now injection Hbg as ->.
  - destruct self. cbn [whiteBackground] in Hbg. subst. reflexivity.
Qed.

Lemma pop_and_render_returns init self img bg rgb_depth image c :
  session_inv init self ->
  cam_node self = Some c ->
  background_of self img = Some bg ->
  offscreen_render env (resolution self) (scene self) (render_flags_of self) = Ok rgb_depth ->
  composite (fst rgb_depth) bg = Ok image ->
  exists self',
    pop_and_render env img self = (Ok image, self')
    /\ cam_node self' = None /\ object_nodes self' = [] /\ human_nodes self' = []
    /\ (forall n, n ∈ tracked self -> nodes (scene self') !! node_id n = None)
    /\ (forall k, nodes (scene self) !! k = None -> nodes (scene self') !! k = None)
    /\ session_inv init self'.
Proof.
  intros [Hsc HT Hw Hr Hf] Hcam Hbg Hraster Hcomp.
  pose proof (pop_and_render_background _ _ _ Hbg) as Hsame.
  rewrite Hsame. clear Hsame.
  unfold pop_and_render. run_pop.
  rewrite Hraster, Hcomp. rewrite Hcam. unfold scene_remove_node at 1. cbn [fst snd].
  unfold tracked in HT. rewrite Hcam in HT. cbn [option_list app] in HT.
  destruct (tracking_ok_remove_head _ _ _ HT) as [Hfst HT1].
  pose proof (tracking_ok_bound _ _ _ c Hsc HT ltac:(left)) as Hc3.
  pose proof (scene_ok_remove _ _ c Hsc ltac:(lia)) as Hsc1.
  rewrite Hfst.
  set (self1 := snd (set_scene _ self)).
  destruct (for_each_remove_tracked init (object_nodes self) (human_nodes self) self1 Hsc1 HT1)
    as (Hok2 & Hframe2 & Hsc2 & HT2 & Hmono2 & Hgone2).
  destruct (for_each (object_nodes self) _ self1) as [res2 self2].
  cbn [fst snd] in *. subst res2.
  rewrite <- (app_nil_r (human_nodes self)) in HT2.
  destruct (for_each_remove_tracked init (human_nodes self) [] self2 Hsc2 HT2)
    as (Hok3 & Hframe3 & Hsc3 & _ & Hmono3 & Hgone3).
  destruct (for_each (human_nodes self) _ self2) as [res3 self3].
  cbn [fst snd] in *. subst res3.
  eexists. split; [reflexivity |].
  cbn [cam_node object_nodes human_nodes scene].
  split; [reflexivity |]. split; [reflexivity |]. split; [reflexivity |].
  assert (Hself3 : whiteBackground self3 = whiteBackground self
                   /\ resolution self3 = resolution self
                   /\ wireframe self3 = wireframe self).
  { rewrite Hframe3, Hframe2. subst self1. cbn. auto. }
  destruct Hself3 as (Hw3 & Hr3 & Hf3).
  split; [| split].
  - intros n Hn. unfold tracked in Hn. rewrite Hcam in Hn. cbn [option_list app] in Hn.
    apply elem_of_cons in Hn as [-> | Hn].
    + apply Hmono3, Hmono2. subst self1. cbn [scene set_scene snd].
      rewrite Scene_remove_nodes. apply lookup_delete_eq.
    + apply elem_of_app in Hn as [Hn | Hn]; [apply Hmono3 |]; auto.
  - intros k Hk. apply Hmono3, Hmono2. subst self1. cbn [scene set_scene snd].
    rewrite Scene_remove_nodes. apply lookup_delete_None. auto.
  - inv_fields; [assumption | apply tracking_ok_nil | congruence | congruence | congruence].
Qed.
Lemma pop_and_render_raises_early self img :
  background_of self img = None
  \/ (exists bg e, background_of self img = Some bg
        /\ offscreen_render env (resolution self) (scene self) (render_flags_of self) = Raise e)
  \/ (exists bg rgb_depth e, background_of self img = Some bg
        /\ offscreen_render env (resolution self) (scene self) (render_flags_of self)
             = Ok rgb_depth
        /\ composite (fst rgb_depth) bg = Raise e) ->
  exists e, pop_and_render env img self = (Raise e, self).
Proof.
  intros [Hbg | [(bg & e & Hbg & Hraster) | (bg & rgb_depth & e & Hbg & Hraster & Hcomp)]].
  - unfold background_of in Hbg. destruct img as [img |]; [discriminate |].
    destruct self. cbn [whiteBackground] in Hbg. subst. eexists. reflexivity.
  - rewrite (pop_and_render_background _ _ _ Hbg). unfold pop_and_render. run_pop.
    rewrite Hraster. eauto.
  - rewrite (pop_and_render_background _ _ _ Hbg). unfold pop_and_render. run_pop.
    rewrite Hraster, Hcomp. eauto.
Qed.


Lemma pop_and_render_without_camera self img bg rgb_depth image :
  cam_node self = None ->
  background_of self img = Some bg ->
  offscreen_render env (resolution self) (scene self) (render_flags_of self) = Ok rgb_depth ->
  composite (fst rgb_depth) bg = Ok image ->
  pop_and_render env img self = (Raise "NetworkXError", self).
Proof.
  intros Hcam Hbg Hraster Hcomp.
  rewrite (pop_and_render_background _ _ _ Hbg). unfold pop_and_render. run_pop.
  rewrite Hraster, Hcomp, Hcam. unfold scene_remove_node. cbn [fst snd].
  rewrite Scene_remove_None. cbn [fst snd]. destruct self; reflexivity.
Qed.

Lemma pop_and_render_inv init self img :
  session_inv init self -> session_inv init (snd (pop_and_render env img self)).
Proof.
  intros Hinv.
  destruct (background_of self img) as [bg |] eqn:Hbg.
  2: { destruct (pop_and_render_raises_early self img) as [e ->]; [auto | exact Hinv]. }
  destruct (offscreen_render env (resolution self) (scene self) (render_flags_of self))
    as [rgb_depth | e] eqn:Hraster.
  2: { destruct (pop_and_render_raises_early self img) as [e' ->]; [| exact Hinv].
       right; left. eauto. }
  destruct (composite (fst rgb_depth) bg) as [image | e] eqn:Hcomp.
  2: { destruct (pop_and_render_raises_early self img) as [e' ->]; [| exact Hinv].
       right; right. eauto 6. }
  destruct (cam_node self) as [c |] eqn:Hcam.
  - destruct (pop_and_render_returns init self img bg rgb_depth image c)
      as (self' & -> & _ & _ & _ & _ & _ & Hinv'); auto.
  - rewrite (pop_and_render_without_camera self img bg rgb_depth image); auto.
Qed.

(** Every call leaves the invariant. *)
Lemma state_after_inv init self (c : Call) :
  session_inv init self -> session_inv init (state_after env c self).
Proof.
  intros Hinv. destruct c; cbn [state_after].
  - now apply render_effect.
  - now apply render_obj_effect.
  - now apply push_cam_inv.
  - now apply push_default_cam_inv.
  - now rewrite screenspace_to_worldspace_pure.
  - now apply push_human_inv.
  - now apply push_obj_inv.
  - now apply pop_and_render_inv.
Qed.

Lemma session_inv_reachable (calls : list Call) init self :
  session_inv init self -> session_inv init (session env calls self).
Proof.
  revert self. induction calls as [| c calls IH]; intros self Hinv; [exact Hinv |].
  cbn [session fold_left]. apply IH. now apply state_after_inv.
Qed.
(** ** The push/pop protocol *)



(** C9, as the code has it: in every session, a call of [render] or of
    [render_obj] whose export or load succeeds and whose mesh is made inserts
    a node for the mesh and a node for the camera and rasterizes the scene
    with the two.  When the rasterizer and the compositing step succeed, the
    call returns the composited image and leaves [cam_node], [object_nodes],
    [human_nodes] and the nodes of the scene as they were before the call:
    the two nodes it inserted are the ones it removed.  When one of the two
    steps raises, the call raises the same and the two nodes are left in the
    scene: the removal is on the way to [return] only. *)
Theorem single_shot_inserts_renders_removes (viewport : positive * positive)
    (orig_img wireframe renderOnWhite : bool) (calls : list Call) :
  let init := Renderer_init env viewport orig_img wireframe renderOnWhite in
  let self := session env calls init in
  (forall img verts cam angle axis mesh_filename color,
     exists exported built : Trimesh F,
       vertices built = verts /\ mesh_faces built = faces self
       /\ forall m,
            match mesh_filename with
            | Some f => trimesh_export env exported f
            | None => Ok tt
            end = Ok tt ->
            from_trimesh env built (material_of color) = Ok m ->
            self_contained env self img m cam
              (render env img verts cam angle axis mesh_filename color self))
  /\ (forall img mesh_file cam translation angle axis scale color loaded,
       trimesh_load env mesh_file = Ok loaded ->
       exists built : Trimesh F,
         vertices built = vertices loaded /\ mesh_faces built = mesh_faces loaded
         /\ forall m,
              from_trimesh env built (material_of color) = Ok m ->
              self_contained env self img m cam
                (render_obj env img mesh_file cam translation angle axis scale color self)).
Proof.
  intros init self.
  assert (Hinv : session_inv init self)
    by apply session_inv_reachable, session_inv_init.
  split.
  - intros img verts cam angle axis mesh_filename color.
    destruct (render_steps img verts cam angle axis mesh_filename color self)
      as (exported & built & Hverts & Hfaces & Hrun).
    exists exported, built. split; [exact Hverts |]. split; [exact Hfaces |].
    intros m Hexport Hmesh. rewrite Hrun, Hexport, Hmesh.
    now apply (insert_render_remove_outcome init).
  - intros img mesh_file cam translation angle axis scale color loaded Hload.
    pose proof (render_obj_steps img mesh_file cam translation angle axis scale color self)
      as Hsteps.
    rewrite Hload in Hsteps. destruct Hsteps as (built & Hverts & Hfaces & Hrun).
    exists built. split; [exact Hverts |]. split; [exact Hfaces |].
    intros m Hmesh. rewrite Hrun, Hmesh.
    now apply (insert_render_remove_outcome init).
Qed.

(** C10: the scene of a freshly constructed instance holds three nodes, each
    a point light, and after any sequence of [render], [render_obj],
    [push_cam], [push_default_cam], [screenspace_to_worldspace], [push_human],
    [push_obj] and [pop_and_render] calls, returning or raising, each of the
    three is still a node of the scene. *)
Theorem lights_are_never_removed (resolution : positive * positive)
    (orig_img wireframe renderOnWhite : bool) (calls : list Call) :
  let init := Renderer_init env resolution orig_img wireframe renderOnWhite in
  let self := session env calls init in
  dom (nodes (scene init)) = {[0%nat; 1%nat; 2%nat]}
  /\ forall k n,
       nodes (scene init) !! k = Some n ->
       is_Some (light n) /\ nodes (scene self) !! k = Some n.
Proof.
  intros init self.
  assert (Hinv : session_inv init self)
    by apply session_inv_reachable, session_inv_init.
  split.
  - unfold init, Renderer_init, Scene_add, Scene_pose_written.
    cbn [scene nodes allocated snd].
    repeat first [rewrite dom_insert_L | rewrite dom_fmap_L]. rewrite dom_empty_L. set_solver.
  - intros k n Hk.
    destruct (init_nodes resolution orig_img wireframe renderOnWhite) as [_ Hn].
    destruct (Hn k n Hk) as (Hk3 & _ & Hlight & _).
    split; [exact Hlight |].
    destruct Hinv as [(_ & Hlights & _) _ _ _ _]. rewrite Hlights by exact Hk3. exact Hk.
Qed.
(** X3: after any sequence of calls, returning or raising, every node the
    instance tracks ([cam_node], [object_nodes], [human_nodes]) is a node of
    the scene, no node is tracked twice, and the resolution, the wireframe
    flag and the white canvas are as constructed. *)
Theorem reachable_sessions_are_consistent (viewport : positive * positive)
    (orig_img wireframe renderOnWhite : bool) (calls : list Call) :
  let init := Renderer_init env viewport orig_img wireframe renderOnWhite in
  session_inv init (session env calls init).
Proof.
  intros init. apply session_inv_reachable, session_inv_init.
Qed.
End SessionFacts.

(** ** The protocol on a session of four pushes *)





Lemma single_shot_inserts_renders_removes_witness :
  let self := session stub two_humans_one_object
                (Renderer_init stub (2, 2)%positive false false true) in
  let r := render stub (np_full (2, 2, 3)%nat 0) [(0, 0, 0); (1, 0, 0); (0, 1, 0)]%float
             (1, 1, 0, 0)%float None None None (1, 1, 0.5)%float self in
  exists exported built : Trimesh float,
    vertices built = [(0, 0, 0); (1, 0, 0); (0, 1, 0)]%float
    /\ mesh_faces built = faces self
    /\ self_contained stub self (np_full (2, 2, 3)%nat 0)
         {| primitive := built; material := material_of (1, 1, 0.5)%float |}
         (1, 1, 0, 0)%float r.
Proof.
  intros self r.
  destruct (proj1 (single_shot_inserts_renders_removes stub (2, 2)%positive false false true
                     two_humans_one_object)
              (np_full (2, 2, 3)%nat 0) [(0, 0, 0); (1, 0, 0); (0, 1, 0)]%float
              (1, 1, 0, 0)%float None None None (1, 1, 0.5)%float)
    as (exported & built & Hverts & Hfaces & Hcall).
  exists exported, built. split; [exact Hverts |]. split; [exact Hfaces |].
  apply Hcall; reflexivity.
Defined.

(** A single-shot call that is not atomic: the default instance, asked to
    render over a background of three rows where its frame has two.  The
    compositing step raises [ValueError] after the two nodes were inserted,
    and they are left in the scene, five nodes where there were three. *)
Lemma render_over_wrong_background_leaves_two_nodes :
  let self := Renderer_init stub (2, 2)%positive false false false in
  let r := render stub (np_full (3, 2, 3)%nat 0) [(0, 0, 0); (1, 0, 0); (0, 1, 0)]%float
             (1, 1, 0, 0)%float None None None (1, 1, 0.5)%float self in
  fst r = Raise "ValueError"
  /\ size (nodes (scene self)) = 3%nat
  /\ size (nodes (scene (snd r))) = 5%nat
  /\ is_Some (nodes (scene (snd r)) !! 3%nat)
  /\ is_Some (nodes (scene (snd r)) !! 4%nat)
  /\ ~ restored self (snd r).
Proof.
  intros self r.
  split; [vm_compute; reflexivity |]. split; [vm_compute; reflexivity |].
  split; [vm_compute; reflexivity |]. split; [vm_compute; eauto |].
  split; [vm_compute; eauto |].
  intros (_ & _ & _ & Hnodes). apply (f_equal size) in Hnodes.
  vm_compute in Hnodes. discriminate Hnodes.
Qed.

(** ** Facts of binary64: the sign of a product, and the rotation of an
    auxiliary object *)

Section ObjectRotation.
Local Open Scope float_scope.

Lemma nan_mul_l (x : float) : nan * x = nan.
Proof.
  rewrite <- (SF2Prim_Prim2SF (nan * x)), mul_spec.
  change (Prim2SF nan) with S754_nan. reflexivity.
Qed.

Lemma nan_add_l (x : float) : nan + x = nan.
Proof.
  rewrite <- (SF2Prim_Prim2SF (nan + x)), add_spec.
  change (Prim2SF nan) with S754_nan. reflexivity.
Qed.

Lemma nan_add_r (x : float) : x + nan = nan.
Proof.
  rewrite <- (SF2Prim_Prim2SF (x + nan)), add_spec.
  change (Prim2SF nan) with S754_nan. now destruct (Prim2SF x).
Qed.

(** On binary64 the sign of a product is the product of the signs:
    [(-y) * s] and [-(y * s)] are the same float. *)
Lemma SFmul_opp_l prec emax a b :
  SFmul prec emax (SFopp a) b = SFopp (SFmul prec emax a b).
Proof.
  destruct a as [sa | sa | | sa ma ea], b as [sb | sb | | sb mb eb]; cbn; try reflexivity;
    try (destruct sa, sb; reflexivity).
  unfold binary_round_aux.
  destruct (shr_fexp _ _ _ _ _) as [mrs e'].
  destruct (shr_fexp _ _ _ _ _) as [mrs' e''].
  destruct (shr_m mrs'); try reflexivity;
    try (destruct (_ <=? _)%Z; destruct sa, sb; reflexivity); destruct sa, sb; reflexivity.
Qed.

Lemma float64_opp_mul (y s : float) : (- y) * s = - (y * s).
Proof.
  rewrite <- (SF2Prim_Prim2SF (- y * s)), <- (SF2Prim_Prim2SF (- (y * s))).
  rewrite mul_spec, !opp_spec, mul_spec. unfold SF64mul. now rewrite SFmul_opp_l.
Qed.

(** X2: the entry [P[1][3]] of the camera matrix, written [-translation[1] *
    scale[1]] in the source, is the negated product on binary64 too. *)
Theorem get_projection_matrix_float64_sign (cam : WeakPerspectiveCamera float)
    (width height : option Z) :
  getitem (get_projection_matrix cam width height) 1 3
  = Some (- (snd (translation cam) * snd (scale cam))).
Proof.
  rewrite get_projection_matrix_entries. cbn. now rewrite float64_opp_mul.
Qed.

Lemma unit_vector_zero (sin cos : float -> float) :
  unit_vector (LF := float64_math sin cos) (0, 0, 0) = (nan, nan, nan).
Proof. reflexivity. Qed.

(** C5, where the code departs from it: [render_obj] has no guard for an
    angle of 0 and normalises the axis whatever the angle, so for the axis
    (0, 0, 0) its rotation is not the identity: the 3 by 3 block is NaN, for
    any sine and cosine.  [push_obj] has the guard (next lemma). *)
Theorem render_obj_rotation_zero_axis (sin cos : float -> float) :
  render_obj_rotation (LF := float64_math sin cos) 0 (0, 0, 0)
  = [ [ nan; nan; nan; 0 ];
      [ nan; nan; nan; 0 ];
      [ nan; nan; nan; 0 ];
      [ 0; 0; 0; 1 ] ].
Proof.
  unfold render_obj_rotation, rotation_matrix. rewrite unit_vector_zero.
  cbn.
  rewrite !nan_mul_l, !nan_add_r, !nan_add_l. reflexivity.
Qed.

(** X1: the guard of [push_obj] returns the identity, exactly, for an angle
    of 0 of either sign, whatever the axis and whatever [math] computes. *)
Theorem push_obj_rotation_zero_angle (math : Libm float) (axis : float * float * float) :
  push_obj_rotation (LF := math) 0 axis = identity_matrix
  /\ push_obj_rotation (LF := math) (-0) axis = identity_matrix
  /\ identity_matrix (F := float)
     = [ [ 1; 0; 0; 0 ]; [ 0; 1; 0; 0 ]; [ 0; 0; 1; 0 ]; [ 0; 0; 0; 1 ] ].
Proof. split; [reflexivity | split; reflexivity]. Qed.
End ObjectRotation.

(** ** From the screen to the world and back, in exact arithmetic *)

Section RoundTrip.
Local Open Scope Qc_scope.

Lemma Qc_lit_minus_one : Q2Qc (inject_Z (-1)) = - 1.
Proof. apply Qc_is_canon. reflexivity. Qed.

Lemma Qc_lit_two : Q2Qc (inject_Z 2) = 1 + 1.
Proof. apply Qc_is_canon. reflexivity. Qed.

(** The operations of the interface as those of [Qc], the literals 0, 1, -1
    and 2 as its constants. *)
Ltac as_Qc :=
  cbn [lit fadd fsub fmul fdiv fneg feqb rational] in *;
  change (Q2Qc (inject_Z 0)) with 0 in *;
  change (Q2Qc (inject_Z 1)) with 1 in *;
  rewrite ?Qc_lit_minus_one, ?Qc_lit_two in *.


End RoundTrip.




(** ** More on the single-shot calls *)

Section SingleShotFacts.
Context {F : Type} {SF : Scalar F} {LF : Libm F} (env : Collaborators F).

(** The shared lines, in every outcome: nothing tracked changes; on a return
    the nodes of the scene are as before, on a raise the two inserted nodes,
    a mesh and a camera, are left in it. *)
Lemma insert_render_remove_cases sc0 (self : Renderer F) img m cam flags :
  scene_ok sc0 (scene self) ->
  let r := insert_render_remove env img m cam flags self in
  let a := allocated (scene self) in
  cam_node (snd r) = cam_node self
  /\ object_nodes (snd r) = object_nodes self
  /\ human_nodes (snd r) = human_nodes self
  /\ ((exists image, fst r = Ok image /\ nodes (scene (snd r)) = nodes (scene self))
      \/ (exists e n1 n2,
            fst r = Raise e
            /\ nodes (scene (snd r)) = <[S a := n2]> (<[a := n1]> (nodes (scene self)))
            /\ node_id n1 = a /\ node_id n2 = S a
            /\ mesh n1 = Some m /\ camera n2 = Some (Weak cam))).
Proof.
  intros Hsc. unfold insert_render_remove.
  unfold andthen, pure, lift, get_self, scene_add, scene_remove_node, set_scene,
    set_camera_pose, renderer_render.
  cbn [fst snd scene cam_node camera_pose object_nodes human_nodes whiteBackground
       resolution wireframe faces orig_img].
  set (obj1 := AMesh _); set (obj2 := ACamera _).
  destruct (Scene_add_add_remove_remove _ _ obj1 (Some "mesh") None obj2 None
              (Some (np_eye 4)) Hsc) as (Hremoved1 & Hremoved2 & Hnodes & _ & _).
  cbv zeta in Hremoved1, Hremoved2, Hnodes.
  cbn [fst snd].
  assert (Hleft : exists n1 n2 : Node F,
            nodes (snd (Scene_add (snd (Scene_add (scene self) obj1 (Some "mesh") None))
                          obj2 None (Some (np_eye 4))))
            = <[S (allocated (scene self)) := n2]>
                (<[allocated (scene self) := n1]> (nodes (scene self)))
            /\ node_id n1 = allocated (scene self) /\ node_id n2 = S (allocated (scene self))
            /\ mesh n1 = Some m /\ camera n2 = Some (Weak cam)).
  { do 2 eexists. rewrite !Scene_add_nodes, Scene_add_allocated.
    split; [reflexivity |]. rewrite !Scene_add_id, Scene_add_allocated. repeat split. }
  destruct Hleft as (n1 & n2 & Hleft).
  destruct (offscreen_render env _ _ _) as [rgb_depth | e].
  2: { cbn [fst snd cam_node object_nodes human_nodes scene].
       repeat split. right. exists e, n1, n2. split; [reflexivity | exact Hleft]. }
  destruct (composite _ img) as [image | e].
  2: { cbn [fst snd cam_node object_nodes human_nodes scene].
       repeat split. right. exists e, n1, n2. split; [reflexivity | exact Hleft]. }
  rewrite Hremoved1; cbn [fst snd scene]; rewrite Hremoved2.
  cbn [fst snd cam_node object_nodes human_nodes scene].
  repeat split. left. eexists. split; [reflexivity | exact Hnodes].
Qed.
End SingleShotFacts.
(** ** What a session leaves in the scene *)

Section LeakFacts.
Context {F : Type} {SF : Scalar F} {LF : Libm F} (env : Collaborators F).

Lemma without_cons (n : Node F) l m : without (n :: l) m = without l (delete (node_id n) m).
Proof. reflexivity. Qed.

Lemma without_lookup_in (l : list (Node F)) m k :
  k ∈ node_id <$> l -> without l m !! k = None.
Proof.
  revert m. induction l as [| n l IH]; intros m Hk; [inversion Hk |].
  rewrite without_cons. rewrite fmap_cons in Hk.
  destruct (decide (k ∈ node_id <$> l)) as [Hin | Hout]; [now apply IH |].
  apply elem_of_cons in Hk as [-> | Hk]; [| contradiction].
  clear IH. revert m. induction l as [| n' l IH]; intros m.
  - apply lookup_delete_eq.
  - rewrite without_cons. rewrite fmap_cons in Hout.
    apply not_elem_of_cons in Hout as [Hne Hout].
    rewrite delete_delete. now apply IH.
Qed.

Lemma without_lookup_notin (l : list (Node F)) m k :
  k ∉ node_id <$> l -> without l m !! k = m !! k.
Proof.
  revert m. induction l as [| n l IH]; intros m Hk; [reflexivity |].
  rewrite without_cons. rewrite fmap_cons in Hk.
  apply not_elem_of_cons in Hk as [Hne Hk].
  rewrite IH by exact Hk. now apply lookup_delete_ne.
Qed.

Lemma without_app (l1 l2 : list (Node F)) m : without (l1 ++ l2) m = without l2 (without l1 m).
Proof. unfold without. apply fold_left_app. Qed.

(** The removal loop, when it returns: the nodes of the scene are those
    before it without the nodes of the list, and nothing else changed. *)
Lemma for_each_remove_nodes (l : list (Node F)) (self self' : Renderer F) :
  for_each l (fun n => scene_remove_node (Some n)) self = (Ok tt, self') ->
  nodes (scene self') = without l (nodes (scene self))
  /\ cam_node self' = cam_node self
  /\ object_nodes self' = object_nodes self
  /\ human_nodes self' = human_nodes self.
Proof.
  revert self. induction l as [| n l IH]; intros self Hrun.
  - cbn in Hrun. injection Hrun as <-. auto.
  - cbn [for_each] in Hrun. unfold andthen, scene_remove_node at 1 in Hrun.
    cbn [fst snd] in Hrun. unfold Scene_remove_node in Hrun.
    destruct (nodes (scene self) !! node_id n) as [x |] eqn:Hx; [| discriminate Hrun].
    cbn [fst snd set_scene] in Hrun.
    apply IH in Hrun as (Hnodes & Hc & Ho & Hh).
    cbn [scene nodes cam_node object_nodes human_nodes] in Hnodes, Hc, Ho, Hh.
    rewrite without_cons. auto.
Qed.

(** [pop_and_render], when it returns: there was a camera, the tracked
    attributes are reset, and the nodes of the scene are those before the
    call without the tracked ones. *)
Lemma pop_and_render_Ok (self self' : Renderer F) img image :
  pop_and_render env img self = (Ok image, self') ->
  is_Some (cam_node self)
  /\ cam_node self' = None /\ object_nodes self' = [] /\ human_nodes self' = []
  /\ nodes (scene self') = without (tracked self) (nodes (scene self)).
Proof.
  intros Hrun. unfold pop_and_render in Hrun.
  unfold andthen, pure, lift, get_self, set_cam_node, set_object_nodes, set_human_nodes,
    renderer_render in Hrun.
  cbn [fst snd] in Hrun.
  assert (Hbody : forall bg,
    match offscreen_render env (resolution self) (scene self) (render_flags_of self) with
    | Ok rgb_depth =>
        match composite (fst rgb_depth) bg with
        | Ok image0 =>
            let (r, self1) := scene_remove_node (cam_node self) self in
            match r with
            | Ok _ =>
                let (r, self2) :=
                  for_each (object_nodes self) (fun n => scene_remove_node (Some n)) self1 in
                match r with
                | Ok _ =>
                    let (r, self3) :=
                      for_each (human_nodes self) (fun n => scene_remove_node (Some n)) self2 in
                    match r with
                    | Ok _ =>
                        (Ok image0,
                         {| resolution := resolution self3; faces := faces self3;
                            orig_img := orig_img self3; wireframe := wireframe self3;
                            scene := scene self3; cam_node := None;
                            camera_pose := camera_pose self3; object_nodes := [];
                            human_nodes := []; whiteBackground := whiteBackground self3 |})
                    | Raise e => (Raise e, self3)
                    end
                | Raise e => (Raise e, self2)
                end
            | Raise e => (Raise e, self1)
            end
        | Raise e => (Raise e, self)
        end
    | Raise e => (Raise e, self)
    end = (Ok image, self') ->
    is_Some (cam_node self)
    /\ cam_node self' = None /\ object_nodes self' = [] /\ human_nodes self' = []
    /\ nodes (scene self') = without (tracked self) (nodes (scene self))).
  { clear Hrun. intros bg Hrun.
    destruct (offscreen_render env _ _ _) as [rgb_depth |]; [| discriminate Hrun].
    destruct (composite _ bg) as [image0 |]; [| discriminate Hrun].
    unfold scene_remove_node at 1 in Hrun. unfold Scene_remove_node in Hrun.
    destruct (cam_node self) as [c |] eqn:Hcam; [| discriminate Hrun].
    destruct (nodes (scene self) !! node_id c) as [x |]; [| discriminate Hrun].
    cbn [fst snd set_scene] in Hrun.
    destruct (for_each (object_nodes self) _ _) as [[[] |] self2] eqn:E2; [| discriminate Hrun].
    destruct (for_each (human_nodes self) _ _) as [[[] |] self3] eqn:E3; [| discriminate Hrun].
    injection Hrun as _ <-.
    apply for_each_remove_nodes in E2 as (Hn2 & _). apply for_each_remove_nodes in E3 as (Hn3 & _).
    cbn [scene nodes cam_node object_nodes human_nodes] in *.
    split; [eauto |]. do 3 (split; [reflexivity |]).
    unfold tracked. rewrite Hcam. change (option_list (Some c)) with [c]. cbn [app]. rewrite without_cons, without_app.
    congruence. }
  destruct img as [img |]; [exact (Hbody img Hrun) |].
  destruct (whiteBackground self) as [white |]; [exact (Hbody white Hrun) | discriminate Hrun].
Qed.

Lemma untracked_lookup (self : Renderer F) k n :
  untracked self !! k = Some n
  <-> nodes (scene self) !! k = Some n /\ k ∉ node_id <$> tracked self.
Proof.
  unfold untracked. destruct (decide (k ∈ node_id <$> tracked self)) as [Hin | Hout].
  - rewrite without_lookup_in by exact Hin. split; [discriminate | tauto].
  - rewrite without_lookup_notin by exact Hout. tauto.
Qed.

(** What the pushes do. *)
Local Ltac the_node :=
  cbn [fst snd scene cam_node object_nodes human_nodes]; unfold Scene_add;
  cbn [fst snd nodes];
  match goal with
  | |- context [<[_ := ?n]> (nodes (scene _))] => exists n
  end;
  cbn [node_id mesh camera]; eauto 10.

Lemma push_human_effect verts color (self : Renderer F) :
  let r := push_human env verts color self in
  (exists e, r = (Raise e, self))
  \/ (exists node,
        fst r = Ok tt
        /\ node_id node = allocated (scene self) /\ is_Some (mesh node)
        /\ nodes (scene (snd r)) = <[allocated (scene self) := node]> (nodes (scene self))
        /\ cam_node (snd r) = cam_node self
        /\ object_nodes (snd r) = object_nodes self
        /\ human_nodes (snd r) = human_nodes self ++ [node]).
Proof.
  unfold push_human, andthen, get_self, lift, scene_add, set_scene, set_human_nodes.
  cbn [fst snd].
  destruct (from_trimesh env _ _) as [m | e]; [right | left; eauto].
  the_node.
Qed.

Lemma push_obj_effect mesh_file translation angle axis scale color (self : Renderer F) :
  let r := push_obj env mesh_file translation angle axis scale color self in
  (exists e, r = (Raise e, self))
  \/ (exists node,
        fst r = Ok tt
        /\ node_id node = allocated (scene self) /\ is_Some (mesh node)
        /\ nodes (scene (snd r)) = <[allocated (scene self) := node]> (nodes (scene self))
        /\ cam_node (snd r) = cam_node self
        /\ object_nodes (snd r) = object_nodes self ++ [node]
        /\ human_nodes (snd r) = human_nodes self).
Proof.
  unfold push_obj, andthen, get_self, lift, scene_add, set_scene, set_object_nodes.
  destruct (trimesh_load env mesh_file) as [loaded | e]; [| left; eauto].
  cbn [fst snd].
  destruct (from_trimesh env _ _) as [m | e]; [right | left; eauto].
  the_node.
Qed.

Lemma push_cam_effect cam (self : Renderer F) :
  let r := push_cam cam self in
  exists node,
    fst r = Ok tt
    /\ node_id node = allocated (scene self) /\ camera node = Some (Weak (camera_of cam))
    /\ nodes (scene (snd r)) = <[allocated (scene self) := node]> (nodes (scene self))
    /\ cam_node (snd r) = Some node
    /\ object_nodes (snd r) = object_nodes self
    /\ human_nodes (snd r) = human_nodes self.
Proof.
  unfold push_cam, andthen, get_self, scene_add, set_scene, set_cam_node, set_camera_pose.
  the_node.
Qed.

Lemma push_default_cam_effect (self : Renderer F) :
  let r := push_default_cam self in
  exists node,
    fst r = Ok tt
    /\ node_id node = allocated (scene self) /\ is_Some (camera node)
    /\ nodes (scene (snd r)) = <[allocated (scene self) := node]> (nodes (scene self))
    /\ cam_node (snd r) = Some node
    /\ object_nodes (snd r) = object_nodes self
    /\ human_nodes (snd r) = human_nodes self.
Proof.
  unfold push_default_cam, andthen, get_self, scene_add, set_scene, set_cam_node,
    set_camera_pose.
  the_node.
Qed.

(** A node inserted under a new identity: the nodes that were untracked
    stay so, and when the tracked nodes are those of before and the new one,
    the untracked nodes are exactly those of before. *)
Lemma untracked_insert_kept init (self self' : Renderer F) node k n :
  session_inv init self ->
  nodes (scene self') = <[allocated (scene self) := node]> (nodes (scene self)) ->
  (forall i, i ∈ node_id <$> tracked self' ->
     i = allocated (scene self) \/ i ∈ node_id <$> tracked self) ->
  untracked self !! k = Some n -> untracked self' !! k = Some n.
Proof.
  intros [Hsc _ _ _ _] Hnodes Hsub Hk.
  apply untracked_lookup in Hk as [Hk Hout]. apply untracked_lookup.
  destruct Hsc as (Hbound & _). destruct (Hbound _ _ Hk) as [Hlt _].
  split.
  - rewrite Hnodes. rewrite lookup_insert_ne by lia. exact Hk.
  - intros Hin. apply Hsub in Hin as [-> | Hin]; [lia | contradiction].
Qed.

Lemma untracked_insert_same init (self self' : Renderer F) node :
  session_inv init self ->
  nodes (scene self') = <[allocated (scene self) := node]> (nodes (scene self)) ->
  (forall i, i ∈ node_id <$> tracked self' <->
     i = allocated (scene self) \/ i ∈ node_id <$> tracked self) ->
  untracked self' = untracked self.
Proof.
  intros Hinv Hnodes Hiff. apply map_eq. intros k. apply option_eq. intros n. split.
  - intros Hk. apply untracked_lookup in Hk as [Hk Hout]. apply untracked_lookup.
    assert (Hne : k <> allocated (scene self)).
    { intros ->. apply Hout, Hiff. auto. }
    rewrite Hnodes, lookup_insert_ne in Hk by auto.
    split; [exact Hk |]. intros Hin. apply Hout, Hiff. auto.
  - apply (untracked_insert_kept init _ _ node); [assumption .. |]. intros i. apply Hiff.
Qed.
End LeakFacts.

(** The cases of a call, its arguments named as the methods name them. *)
Ltac cases_of c :=
  destruct c as [img verts cam angle axis mesh_filename rgb
                | img mesh_file cam translation angle axis factors rgb
                | cam
                |
                | x y
                | verts rgb
                | mesh_file translation angle axis factors rgb
                | img].

Section UntrackedFacts.
Context {F : Type} {SF : Scalar F} {LF : Libm F} (env : Collaborators F).

Lemma tracked_eq (self self' : Renderer F) :
  cam_node self' = cam_node self -> object_nodes self' = object_nodes self ->
  human_nodes self' = human_nodes self -> tracked self' = tracked self.
Proof. unfold tracked. now intros -> -> ->. Qed.

Lemma ids_Some (n : Node F) i : i ∈ node_id <$> option_list (Some n) <-> i = node_id n.
Proof. cbn. apply list_elem_of_singleton. Qed.

Lemma ids_None i : i ∈ node_id <$> option_list (@None (Node F)) <-> False.
Proof. cbn. apply elem_of_nil. Qed.

Lemma tracked_ids (self : Renderer F) i :
  i ∈ node_id <$> tracked self
  <-> i ∈ node_id <$> option_list (cam_node self)
      \/ i ∈ node_id <$> object_nodes self
      \/ i ∈ node_id <$> human_nodes self.
Proof. unfold tracked. rewrite !fmap_app, !elem_of_app. tauto. Qed.

Lemma snoc_ids (l : list (Node F)) node i :
  i ∈ node_id <$> l ++ [node] <-> i ∈ node_id <$> l \/ i = node_id node.
Proof. rewrite fmap_app, elem_of_app. cbn. now rewrite list_elem_of_singleton. Qed.

(** [pop_and_render] on an instance of a session either raises and leaves
    the instance as it was, or returns. *)
Lemma pop_and_render_outcome init (self : Renderer F) img :
  session_inv init self ->
  (exists e, pop_and_render env img self = (Raise e, self))
  \/ (exists image self', pop_and_render env img self = (Ok image, self')).
Proof.
  intros Hinv.
  destruct (background_of self img) as [bg |] eqn:Hbg.
  2: { left. apply pop_and_render_raises_early. auto. }
  destruct (offscreen_render env (resolution self) (scene self) (render_flags_of self))
    as [rgb_depth | e] eqn:Hraster.
  2: { left. apply pop_and_render_raises_early. right; left. eauto. }
  destruct (composite (fst rgb_depth) bg) as [image | e] eqn:Hcomp.
  2: { left. apply pop_and_render_raises_early. right; right. eauto 6. }
  destruct (cam_node self) as [c |] eqn:Hcam.
  - right. destruct (pop_and_render_returns env init self img bg rgb_depth image c)
      as (self' & Hrun & _); eauto.
  - left. exists "NetworkXError".
    now apply (pop_and_render_without_camera env self img bg rgb_depth image).
Qed.

(** A call that only pushes geometry, or a camera when there is none,
    leaves the untracked nodes as they are. *)
Lemma untracked_push init (self : Renderer F) (c : Call) :
  session_inv init self ->
  pushes_geometry c = true \/ (pushes_camera c = true /\ cam_node self = None) ->
  untracked (state_after env c self) = untracked self.
Proof.
  intros Hinv Hc.
  cases_of c; cbn [pushes_geometry pushes_camera state_after] in *;
    try (destruct Hc as [Hc | [Hc _]]; discriminate Hc).
  - destruct Hc as [Hc | [_ Hcam]]; [discriminate Hc |].
    destruct (push_cam_effect cam self) as (node & _ & Hid & _ & Hnodes & Hcn & Ho & Hh).
    apply (untracked_insert_same init _ _ node Hinv Hnodes).
    intros i. rewrite !tracked_ids, Hcn, Ho, Hh, Hcam, ids_Some, ids_None, <- Hid. tauto.
  - destruct Hc as [Hc | [_ Hcam]]; [discriminate Hc |].
    destruct (push_default_cam_effect self) as (node & _ & Hid & _ & Hnodes & Hcn & Ho & Hh).
    apply (untracked_insert_same init _ _ node Hinv Hnodes).
    intros i. rewrite !tracked_ids, Hcn, Ho, Hh, Hcam, ids_Some, ids_None, <- Hid. tauto.
  - destruct (push_human_effect env verts rgb self)
      as [(e & ->) | (node & _ & Hid & _ & Hnodes & Hcn & Ho & Hh)]; [reflexivity |].
    apply (untracked_insert_same init _ _ node Hinv Hnodes).
    intros i. rewrite !tracked_ids, Hcn, Ho, Hh, snoc_ids, <- Hid. tauto.
  - destruct (push_obj_effect env mesh_file translation angle axis factors rgb self)
      as [(e & ->) | (node & _ & Hid & _ & Hnodes & Hcn & Ho & Hh)]; [reflexivity |].
    apply (untracked_insert_same init _ _ node Hinv Hnodes).
    intros i. rewrite !tracked_ids, Hcn, Ho, Hh, snoc_ids, <- Hid. tauto.
Qed.

(** No call removes an untracked node or starts to track it. *)
Lemma untracked_state_after init (self : Renderer F) (c : Call) k n :
  session_inv init self ->
  untracked self !! k = Some n -> untracked (state_after env c self) !! k = Some n.
Proof.
  intros Hinv Hk. pose proof Hinv as [Hsc HT _ _ _].
  assert (Hsame : forall self' : Renderer F,
            nodes (scene self') !! k = Some n -> tracked self' = tracked self ->
            untracked self' !! k = Some n).
  { intros self' Hn Ht. apply untracked_lookup in Hk as [_ Hout].
    apply untracked_lookup. now rewrite Ht. }
  assert (Hlt : (k < allocated (scene self))%nat).
  { apply untracked_lookup in Hk as [Hk _]. destruct Hsc as (Hb & _). now apply Hb in Hk. }
  assert (Hshared : forall img m cam flags,
            untracked (snd (insert_render_remove env img m cam flags self)) !! k = Some n).
  { intros img m cam flags.
    destruct (insert_render_remove_cases env _ self img m cam flags Hsc)
      as (Hc & Ho & Hh & [(image & _ & Hnodes) | (e & n1 & n2 & _ & Hnodes & _)]).
    - apply Hsame; [| now apply tracked_eq]. rewrite Hnodes.
      now apply untracked_lookup in Hk as [Hk _].
    - apply Hsame; [| now apply tracked_eq]. rewrite Hnodes.
      rewrite !lookup_insert_ne by lia. now apply untracked_lookup in Hk as [Hk _]. }
  destruct (pushes_geometry c) eqn:Hgeometry;
    [rewrite (untracked_push init) by auto; exact Hk |].
  cases_of c; cbn [state_after]; try discriminate Hgeometry.
  - destruct (render_cases env img verts cam angle axis mesh_filename rgb self)
      as [(e & ->) | (m & ->)]; [exact Hk | apply Hshared].
  - destruct (render_obj_cases env img mesh_file cam translation angle axis factors rgb self)
      as [(e & ->) | (m & ->)]; [exact Hk | apply Hshared].
  - destruct (push_cam_effect cam self) as (node & _ & Hid & _ & Hnodes & Hcn & Ho & Hh).
    apply (untracked_insert_kept init self _ node); try assumption.
    intros i. rewrite !tracked_ids, Hcn, Ho, Hh, ids_Some, <- Hid. tauto.
  - destruct (push_default_cam_effect self) as (node & _ & Hid & _ & Hnodes & Hcn & Ho & Hh).
    apply (untracked_insert_kept init self _ node); try assumption.
    intros i. rewrite !tracked_ids, Hcn, Ho, Hh, ids_Some, <- Hid. tauto.
  - now rewrite screenspace_to_worldspace_pure.
  - destruct (pop_and_render_outcome init self img Hinv) as [(e & ->) | (image & self' & Hrun)];
      [exact Hk |].
    rewrite Hrun. cbn [snd].
    apply pop_and_render_Ok in Hrun as (_ & Hc & Ho & Hh & Hnodes).
    unfold untracked at 1, tracked. rewrite Hc, Ho, Hh, Hnodes. exact Hk.
Qed.

Lemma untracked_session init (calls : list Call) (self : Renderer F) k n :
  session_inv init self ->
  untracked self !! k = Some n -> untracked (session env calls self) !! k = Some n.
Proof.
  revert self. induction calls as [| c calls IH]; intros self Hinv Hk; [exact Hk |].
  cbn [session fold_left]. apply IH.
  - now apply state_after_inv.
  - now apply (untracked_state_after init).
Qed.

(** Under the invariant, a node of the scene is tracked exactly when its
    identity is that of a tracked node. *)
Lemma tracked_by_id init (self : Renderer F) k n :
  session_inv init self ->
  nodes (scene self) !! k = Some n ->
  n ∈ tracked self <-> k ∈ node_id <$> tracked self.
Proof.
  intros [Hsc HT _ _ _] Hk. destruct Hsc as (Hb & _). destruct (Hb _ _ Hk) as [_ Hid].
  split.
  - intros Hin. rewrite <- Hid. now apply list_elem_of_fmap_2.
  - intros Hin. apply list_elem_of_fmap in Hin as (n' & -> & Hn').
    destruct HT as (Hin & _). destruct (Hin _ Hn') as [Hlook _].
    rewrite Hlook in Hk. now injection Hk as <-.
Qed.
End UntrackedFacts.

Section StrayFacts.
Context {F : Type} {SF : Scalar F} {LF : Libm F} (env : Collaborators F).

Lemma stray_untracked init (self : Renderer F) n :
  session_inv init self ->
  stray n self <-> untracked self !! node_id n = Some n.
Proof.
  intros Hinv. unfold stray. rewrite untracked_lookup. split.
  - intros [Hn Hout]. split; [exact Hn |]. now rewrite <- (tracked_by_id init self (node_id n) n).
  - intros [Hn Hout]. split; [exact Hn |]. now rewrite (tracked_by_id init self (node_id n) n).
Qed.

Lemma stray_session init (self : Renderer F) n (more : list Call) :
  session_inv init self -> stray n self -> stray n (session env more self).
Proof.
  intros Hinv Hn.
  apply (stray_untracked init); [now apply session_inv_reachable |].
  apply (untracked_session env init); [assumption |].
  now apply (stray_untracked init).
Qed.

Lemma tracked_below init (self : Renderer F) i :
  session_inv init self -> i ∈ node_id <$> tracked self -> (i < allocated (scene self))%nat.
Proof.
  intros [Hsc HT _ _ _] Hi. apply list_elem_of_fmap in Hi as (n & -> & Hn).
  pose proof (tracking_ok_bound _ _ _ _ Hsc HT Hn). lia.
Qed.

Lemma insert_render_remove_raises init (self self' : Renderer F) img m cam flags e :
  session_inv init self -> session_inv init self' ->
  insert_render_remove env img m cam flags self = (Raise e, self') ->
  cam_node self' = cam_node self
  /\ object_nodes self' = object_nodes self
  /\ human_nodes self' = human_nodes self
  /\ leaked env self self'.
Proof.
  intros Hinv Hinv' Hrun. pose proof Hinv as [Hsc HT _ _ _].
  destruct (insert_render_remove_cases env _ self img m cam flags Hsc)
    as (Hc & Ho & Hh & Hcases).
  rewrite Hrun in Hc, Ho, Hh, Hcases. cbn [fst snd] in Hc, Ho, Hh, Hcases.
  do 3 (split; [assumption |]).
  destruct Hcases as [(image & Himage & _) | (e' & n1 & n2 & _ & Hnodes & Hid1 & Hid2 & Hm & Hcam)];
    [discriminate Himage |].
  assert (Hfresh : forall i, (allocated (scene self) <= i)%nat -> nodes (scene self) !! i = None)
    by (intros i Hi; eapply scene_ok_fresh; eassumption).
  assert (Hout : forall i, (allocated (scene self) <= i)%nat -> i ∉ node_id <$> tracked self').
  { intros i Hi Hin. rewrite (tracked_eq self self') in Hin by assumption.
    apply (tracked_below init) in Hin; [lia | assumption]. }
  exists n1, n2. rewrite Hm, Hcam, Hid1, Hid2.
  split; [eauto |]. split; [eauto |]. split; [lia |].
  split; [apply Hfresh; lia |]. split; [apply Hfresh; lia |].
  intros more. split; apply (stray_session init); try assumption.
  - apply (stray_untracked init); [assumption |]. apply untracked_lookup.
    rewrite Hnodes, Hid1. split; [| apply Hout; lia].
    rewrite lookup_insert_ne by lia. apply lookup_insert_eq.
  - apply (stray_untracked init); [assumption |]. apply untracked_lookup.
    rewrite Hnodes, Hid2. split; [| apply Hout; lia].
    apply lookup_insert_eq.
Qed.

(** [pop_and_render] with no current camera raises and leaves the instance
    as it was. *)
Lemma pop_and_render_no_camera_raises (self : Renderer F) img :
  cam_node self = None -> exists e, pop_and_render env img self = (Raise e, self).
Proof.
  intros Hcam.
  destruct (background_of self img) as [bg |] eqn:Hbg.
  2: { apply pop_and_render_raises_early. auto. }
  destruct (offscreen_render env (resolution self) (scene self) (render_flags_of self))
    as [rgb_depth | e] eqn:Hraster.
  2: { apply pop_and_render_raises_early. right; left. eauto. }
  destruct (composite (fst rgb_depth) bg) as [image | e] eqn:Hcomp.
  2: { apply pop_and_render_raises_early. right; right. eauto 6. }
  exists "NetworkXError".
  now apply (pop_and_render_without_camera env self img bg rgb_depth image).
Qed.

(** Geometry pushes leave the camera and the untracked nodes as they are. *)
Lemma pushes_session init (pushes : list Call) (self : Renderer F) :
  session_inv init self ->
  Forall (fun c => pushes_geometry c = true) pushes ->
  cam_node (session env pushes self) = cam_node self
  /\ untracked (session env pushes self) = untracked self.
Proof.
  revert self. induction pushes as [| c pushes IH]; intros self Hinv Hall; [auto |].
  apply Forall_cons in Hall as [Hc Hall]. cbn [session fold_left].
  destruct (IH (state_after env c self)) as [Hcam Hun];
    [now apply state_after_inv | assumption |].
  fold (session env pushes (state_after env c self)).
  rewrite Hcam, Hun. split; [| apply (untracked_push env init); auto].
  cases_of c; try discriminate Hc; cbn [state_after].
  - destruct (push_human_effect env verts rgb self)
      as [(e & ->) | (node & _ & _ & _ & _ & -> & _)]; reflexivity.
  - destruct (push_obj_effect env mesh_file translation angle axis factors rgb self)
      as [(e & ->) | (node & _ & _ & _ & _ & -> & _)]; reflexivity.
Qed.

Lemma push_camera_Some (c : Call) (self : Renderer F) :
  pushes_camera c = true -> is_Some (cam_node (state_after env c self)).
Proof.
  cases_of c; try discriminate; intros _; cbn [state_after].
  - destruct (push_cam_effect cam self) as (node & _ & _ & _ & _ & -> & _). eauto.
  - destruct (push_default_cam_effect self) as (node & _ & _ & _ & _ & -> & _). eauto.
Qed.

(** X4: no call removes a node of the scene that the instance does not
    track, or begins to track it: a node that is in the scene and is neither
    [cam_node] nor in [object_nodes] or [human_nodes] is so after any further
    calls, returning or raising. *)
Theorem stray_nodes_are_never_removed (viewport : positive * positive)
    (orig_img wireframe renderOnWhite : bool) (calls more : list Call) (n : Node F) :
  let init := Renderer_init env viewport orig_img wireframe renderOnWhite in
  let self := session env calls init in
  stray n self -> stray n (session env more self).
Proof.
  intros init self. apply (stray_session init).
  apply session_inv_reachable, session_inv_init.
Qed.

(** X5: a camera pushed while there is a current camera replaces it in
    [cam_node] and does not remove it: the earlier camera node stays in the
    scene, tracked by nothing, whatever is called afterwards,
    [pop_and_render] included. *)
Theorem replaced_camera_stays_in_scene (viewport : positive * positive)
    (orig_img wireframe renderOnWhite : bool) (calls more : list Call)
    (earlier : Node F) (c : Call) :
  let init := Renderer_init env viewport orig_img wireframe renderOnWhite in
  let self := session env calls init in
  cam_node self = Some earlier ->
  pushes_camera c = true ->
  let self1 := state_after env c self in
  (exists later, cam_node self1 = Some later /\ node_id later <> node_id earlier)
  /\ stray earlier (session env more self1).
Proof.
  intros init self Hcam Hc self1.
  assert (Hinv : session_inv init self)
    by apply session_inv_reachable, session_inv_init.
  assert (Hinv1 : session_inv init self1) by now apply state_after_inv.
  pose proof Hinv as [Hsc HT _ _ _].
  assert (Hin : earlier ∈ tracked self) by (unfold tracked; rewrite Hcam; left).
  destruct HT as (Hlook & Hnd). destruct (Hlook _ Hin) as [Hearlier _].
  assert (Hlt : (node_id earlier < allocated (scene self))%nat).
  { destruct Hsc as (Hb & _). now apply Hb in Hearlier. }
  assert (Hrest : node_id earlier ∉ node_id <$> object_nodes self ++ human_nodes self).
  { unfold tracked in Hnd. rewrite Hcam in Hnd. cbn in Hnd. now apply NoDup_cons in Hnd. }
  rewrite fmap_app, elem_of_app in Hrest.
  assert (Hpushed : exists later,
            node_id later = allocated (scene self)
            /\ nodes (scene self1) = <[allocated (scene self) := later]> (nodes (scene self))
            /\ cam_node self1 = Some later
            /\ object_nodes self1 = object_nodes self
            /\ human_nodes self1 = human_nodes self).
  { subst self1. cases_of c; try discriminate Hc; cbn [state_after].
    - destruct (push_cam_effect cam self) as (node & _ & ? & _ & ? & ? & ? & ?). eauto 8.
    - destruct (push_default_cam_effect self) as (node & _ & ? & _ & ? & ? & ? & ?). eauto 8. }
  destruct Hpushed as (later & Hid & Hnodes & Hcn & Ho & Hh).
  split; [exists later; split; [exact Hcn | lia] |].
  apply (stray_session init); [assumption |].
  apply (stray_untracked init); [assumption |]. apply untracked_lookup. split.
  - rewrite Hnodes, lookup_insert_ne by lia. exact Hearlier.
  - rewrite tracked_ids, Hcn, Ho, Hh, ids_Some. intros [E | Hin']; [lia | tauto].
Qed.

(** X6: [render] and [render_obj] remove the two nodes they insert only on
    the way to [return].  In any session a call that raises leaves
    [cam_node], [object_nodes] and [human_nodes] as before the call, and
    either leaves the instance exactly as it was (it raised before the first
    [scene.add]) or leaves its mesh node and its camera node in the scene,
    where they stay whatever is called afterwards. *)
Theorem single_shot_raise_leaks (viewport : positive * positive)
    (orig_img wireframe renderOnWhite : bool) (calls : list Call) :
  let init := Renderer_init env viewport orig_img wireframe renderOnWhite in
  let self := session env calls init in
  (forall img verts cam angle axis mesh_filename color e self',
     render env img verts cam angle axis mesh_filename color self = (Raise e, self') ->
     cam_node self' = cam_node self
     /\ object_nodes self' = object_nodes self
     /\ human_nodes self' = human_nodes self
     /\ (self' = self \/ leaked env self self'))
  /\ (forall img mesh_file cam translation angle axis scale color e self',
       render_obj env img mesh_file cam translation angle axis scale color self
         = (Raise e, self') ->
       cam_node self' = cam_node self
       /\ object_nodes self' = object_nodes self
       /\ human_nodes self' = human_nodes self
       /\ (self' = self \/ leaked env self self')).
Proof.
  intros init self.
  assert (Hinv : session_inv init self)
    by apply session_inv_reachable, session_inv_init.
  split.
  - intros img verts cam angle axis mesh_filename color e self' Hrun.
    assert (Hinv' : session_inv init self').
    { change self' with (snd (Raise (A := ndarray) e, self')). rewrite <- Hrun.
      now apply render_effect. }
    destruct (render_cases env img verts cam angle axis mesh_filename color self)
      as [(e' & Hraise) | (m & Hshared)].
    + rewrite Hraise in Hrun. injection Hrun as _ <-. auto 6.
    + rewrite Hshared in Hrun.
      destruct (insert_render_remove_raises init _ _ _ _ _ _ _ Hinv Hinv' Hrun)
        as (? & ? & ? & ?). auto 6.
  - intros img mesh_file cam translation angle axis scale color e self' Hrun.
    assert (Hinv' : session_inv init self').
    { change self' with (snd (Raise (A := ndarray) e, self')). rewrite <- Hrun.
      now apply render_obj_effect. }
    destruct (render_obj_cases env img mesh_file cam translation angle axis scale color self)
      as [(e' & Hraise) | (m & Hshared)].
    + rewrite Hraise in Hrun. injection Hrun as _ <-. auto 6.
    + rewrite Hshared in Hrun.
      destruct (insert_render_remove_raises init _ _ _ _ _ _ _ Hinv Hinv' Hrun)
        as (? & ? & ? & ?). auto 6.
Qed.

(** X7: a frame leaves no node behind.  On an instance that tracks nothing,
    the pushes of one camera and of any humans and objects, in any order,
    followed by a [pop_and_render] whose rasterization and compositing
    succeed, return the composited image and leave the nodes of the scene
    exactly those before the first push, and the instance tracking nothing
    again. *)
Theorem frame_leaves_scene_as_before (viewport : positive * positive)
    (orig_img wireframe renderOnWhite : bool) (calls before after : list Call) (c : Call)
    (img : option ndarray) (bg : ndarray) (rgb_depth : ndarray * ndarray) (image : ndarray) :
  let init := Renderer_init env viewport orig_img wireframe renderOnWhite in
  let self := session env calls init in
  let pushed := session env (before ++ c :: after) self in
  tracked self = [] ->
  Forall (fun c => pushes_geometry c = true) before ->
  pushes_camera c = true ->
  Forall (fun c => pushes_geometry c = true) after ->
  background_of pushed img = Some bg ->
  offscreen_render env (resolution pushed) (scene pushed) (render_flags_of pushed)
    = Ok rgb_depth ->
  composite (fst rgb_depth) bg = Ok image ->
  exists self',
    pop_and_render env img pushed = (Ok image, self')
    /\ nodes (scene self') = nodes (scene self)
    /\ tracked self' = [].
Proof.
  intros init self pushed Hidle Hbefore Hc Hafter Hbg Hraster Hcomp.
  assert (Hinv : session_inv init self)
    by apply session_inv_reachable, session_inv_init.
  set (self1 := session env before self).
  set (self2 := state_after env c self1).
  assert (Hpushed : pushed = session env after self2).
  { subst pushed self2 self1. unfold session. now rewrite fold_left_app. }
  assert (Hinv1 : session_inv init self1) by now apply session_inv_reachable.
  assert (Hinv2 : session_inv init self2) by now apply state_after_inv.
  assert (Hinv3 : session_inv init pushed)
    by (rewrite Hpushed; now apply session_inv_reachable).
  destruct (pushes_session init before self Hinv Hbefore) as [Hcam1 Hun1].
  fold self1 in Hcam1, Hun1.
  assert (Hnone : cam_node self = None).
  { unfold tracked in Hidle. destruct (cam_node self); [discriminate Hidle | reflexivity]. }
  assert (Hun2 : untracked self2 = untracked self1).
  { apply (untracked_push env init); [assumption |]. right. split; congruence. }
  destruct (pushes_session init after self2 Hinv2 Hafter) as [Hcam3 Hun3].
  rewrite <- Hpushed in Hcam3, Hun3.
  destruct (push_camera_Some c self1 Hc) as [node Hnode]. fold self2 in Hnode.
  destruct (pop_and_render_returns env init pushed img bg rgb_depth image node)
    as (self' & Hrun & Hc' & Ho' & Hh' & _); try assumption; [congruence |].
  exists self'. split; [exact Hrun |].
  apply pop_and_render_Ok in Hrun as (_ & _ & _ & _ & Hnodes).
  split.
  - rewrite Hnodes. fold (untracked pushed). rewrite Hun3, Hun2, Hun1.
    unfold untracked. rewrite Hidle. reflexivity.
  - unfold tracked. rewrite Hc', Ho', Hh'. reflexivity.
Qed.

(** X8: [pop_and_render] is not repeatable: after a call that returned, a
    second call, with any background, raises and leaves the instance as the
    first call left it. *)
Theorem pop_and_render_twice_raises (self self' : Renderer F)
    (img img' : option ndarray) (image : ndarray) :
  pop_and_render env img self = (Ok image, self') ->
  exists e, pop_and_render env img' self' = (Raise e, self').
Proof.
  intros Hrun. apply pop_and_render_Ok in Hrun as (_ & Hcam & _).
  now apply pop_and_render_no_camera_raises.
Qed.

(** X9: [screenspace_to_worldspace] reads the instance and never changes it,
    whether it returns or raises, and with no current camera it raises
    [AttributeError]: before the first [push_cam] or [push_default_cam], and
    again after every [pop_and_render] that returned. *)
Theorem screenspace_to_worldspace_needs_camera (viewport : positive * positive)
    (orig_img wireframe renderOnWhite : bool) (calls : list Call) (x y : F) :
  let init := Renderer_init env viewport orig_img wireframe renderOnWhite in
  let self := session env calls init in
  snd (screenspace_to_worldspace env x y self) = self
  /\ screenspace_to_worldspace env x y init = (Raise "AttributeError", init)
  /\ (cam_node self = None ->
      screenspace_to_worldspace env x y self = (Raise "AttributeError", self))
  /\ (forall img image self',
        pop_and_render env img self = (Ok image, self') ->
        screenspace_to_worldspace env x y self' = (Raise "AttributeError", self')).
Proof.
  intros init self.
  assert (Hraise : forall s : Renderer F, cam_node s = None ->
            screenspace_to_worldspace env x y s = (Raise "AttributeError", s)).
  { intros s Hs. unfold screenspace_to_worldspace, andthen, get_self, lift.
    rewrite Hs. reflexivity. }
  split; [apply screenspace_to_worldspace_pure |].
  split; [now apply Hraise |]. split; [apply Hraise |].
  intros img image self' Hrun. apply Hraise.
  now apply pop_and_render_Ok in Hrun as (_ & Hcam & _).
Qed.
End StrayFacts.

(** ** The protocol on sessions that leave nodes behind *)

Lemma stray_nodes_are_never_removed_witness :
  let earlier :=
    {| node_id := 3; node_name := None; mesh := None; light := None;
       camera := Some (Weak (camera_of (1, 1, 0, 0)%float));
       pose := Some (np_eye 4) |} in
  stray earlier
    (session stub [call_push_human [(0, 0, 0); (1, 0, 0); (0, 1, 0)]%float (1, 1, 0.5)%float;
                   call_pop_and_render None]
       (session stub [call_push_cam (1, 1, 0, 0)%float; call_push_cam (2, 2, 0, 0)%float]
          (Renderer_init stub (2, 2)%positive false false true))).
Proof.
  intros earlier.
  apply (stray_nodes_are_never_removed stub (2, 2)%positive false false true
           [call_push_cam (1, 1, 0, 0)%float; call_push_cam (2, 2, 0, 0)%float]
           [call_push_human [(0, 0, 0); (1, 0, 0); (0, 1, 0)]%float (1, 1, 0.5)%float;
            call_pop_and_render None]
           earlier).
  split; [vm_compute; reflexivity |].
  intros Hin. vm_compute in Hin.
  apply list_elem_of_singleton in Hin. discriminate Hin.
Defined.

Lemma replaced_camera_stays_in_scene_witness :
  let self := session stub [call_push_cam (1, 1, 0, 0)%float]
                (Renderer_init stub (2, 2)%positive false false true) in
  let self1 := state_after stub (call_push_cam (2, 2, 0, 0)%float) self in
  let earlier :=
    {| node_id := 3; node_name := None; mesh := None; light := None;
       camera := Some (Weak (camera_of (1, 1, 0, 0)%float));
       pose := Some (np_eye 4) |} in
  (exists later, cam_node self1 = Some later /\ node_id later <> node_id earlier)
  /\ stray earlier (session stub [call_pop_and_render None] self1).
Proof.
  intros self self1 earlier.
  apply (replaced_camera_stays_in_scene stub (2, 2)%positive false false true
           [call_push_cam (1, 1, 0, 0)%float] [call_pop_and_render None] earlier
           (call_push_cam (2, 2, 0, 0)%float)).
  - vm_compute. reflexivity.
  - reflexivity.
Defined.

Lemma single_shot_raise_leaks_witness :
  let self := Renderer_init offline (2, 2)%positive false false true in
  let r := render offline (np_full (2, 2, 3)%nat 0) [(0, 0, 0); (1, 0, 0); (0, 1, 0)]%float
             (1, 1, 0, 0)%float None None None (1, 1, 0.5)%float self in
  fst r = Raise "GLError" /\ leaked offline self (snd r).
Proof.
  intros self r.
  assert (Hraises : fst r = Raise "GLError") by (vm_compute; reflexivity).
  split; [exact Hraises |].
  destruct (proj1 (single_shot_raise_leaks offline (2, 2)%positive false false true [])
              (np_full (2, 2, 3)%nat 0) [(0, 0, 0); (1, 0, 0); (0, 1, 0)]%float
              (1, 1, 0, 0)%float None None None (1, 1, 0.5)%float "GLError" (snd r))
    as (_ & _ & _ & [Hsame | Hleaked]).
  - change (r = (Raise "GLError", snd r)). rewrite <- Hraises. now destruct r.
  - apply (f_equal (fun s => allocated (scene s))) in Hsame.
    vm_compute in Hsame. discriminate Hsame.
  - exact Hleaked.
Defined.

Lemma frame_leaves_scene_as_before_witness :
  let self := session stub [] (Renderer_init stub (2, 2)%positive false false true) in
  exists image self',
    pop_and_render stub None (session stub two_humans_one_object self)
    = (Ok image, self')
    /\ nodes (scene self') = nodes (scene self)
    /\ tracked self' = [].
Proof.
  intros self. eexists.
  apply (frame_leaves_scene_as_before stub (2, 2)%positive false false true [] []
           [ call_push_human [(0, 0, 0); (1, 0, 0); (0, 1, 0)]%float (1, 1, 0.5)%float;
             call_push_human [(0, 0, 1); (1, 0, 1); (0, 1, 1)]%float (1, 1, 0.5)%float;
             call_push_obj "chair.obj" (0, 0, 0)%float 0%float (1, 0, 0)%float
               (1, 1, 1)%float (0.25, 1, 0.25)%float ]
           (call_push_cam (1, 1, 0, 0)%float)
           None (np_full (2, 2, 3)%nat 255)
           (raster_of (2, 2)%positive, depth_of (2, 2)%positive)).
  - reflexivity.
  - constructor.
  - reflexivity.
  - repeat constructor.
  - reflexivity.
  - reflexivity.
  - reflexivity.
Defined.

Lemma pop_and_render_twice_raises_witness :
  let self := session stub two_humans_one_object
                (Renderer_init stub (2, 2)%positive false false true) in
  let r := pop_and_render stub None self in
  exists e, pop_and_render stub (Some (np_full (2, 2, 3)%nat 0)) (snd r) = (Raise e, snd r).
Proof.
  intros self r.
  destruct (fst r) as [image | e] eqn:Hreturns.
  - apply (pop_and_render_twice_raises stub self (snd r) None
             (Some (np_full (2, 2, 3)%nat 0)) image).
    change (r = (Ok image, snd r)). rewrite <- Hreturns. now destruct r.
  - vm_compute in Hreturns. discriminate.
Defined.

(** ** More on the compositing step *)

Lemma bidx_one (i : nat) : bidx 1 i = 0%nat.
Proof. reflexivity. Qed.

(** X10: over an RGBA raster, a background of one channel (a grayscale
    image kept with its channel axis) is accepted and repeated over the three
    colour channels, and a background of any number of channels other than 1
    and 3, an RGBA image of 4 included, raises numpy's [ValueError]. *)
Theorem composite_background_channels (rgb img : ndarray) (h w c : nat) :
  shape rgb = (h, w, 4%nat) ->
  shape img = (h, w, c) ->
  (c = 1%nat ->
   exists image,
     composite rgb img = Ok image
     /\ shape image = (h, w, 3%nat)
     /\ forall i j k, (i < h)%nat -> (j < w)%nat -> (k < 3)%nat ->
          item image i j k
          = (if 0 <? item rgb i j 3 then item rgb i j k else item img i j 0) mod 256)
  /\ (c <> 1%nat -> c <> 3%nat -> composite rgb img = Raise "ValueError").
Proof.
  intros Hrgb Himg.
  unfold composite, last_channel_positive, drop_last_channel, np_multiply, np_add,
    elementwise, np_rsub, astype_uint8, bitem.
  rewrite Hrgb, Himg. cbn [Nat.eqb Nat.sub shape item rbind broadcast_shapes].
  rewrite !broadcast_dim_same, broadcast_dim_one_r. cbn [rbind shape item broadcast_shapes].
  split.
  - intros ->. rewrite !broadcast_dim_same. cbn [rbind shape item broadcast_shapes].
    rewrite !broadcast_dim_same, broadcast_dim_one_r. cbn [rbind shape item].
    eexists. split; [reflexivity |]. split; [reflexivity |].
    intros i j k Hi Hj Hk. cbn [item].
    rewrite !(bidx_in_range h i), !(bidx_in_range w j), !(bidx_in_range 3 k) by assumption.
    rewrite !bidx_one.
    destruct (0 <? item rgb i j 3); f_equal; lia.
  - intros H1 H3. rewrite broadcast_dim_one_l. cbn [rbind shape item broadcast_shapes].
    rewrite !broadcast_dim_same. cbn [rbind].
    unfold broadcast_dim.
    destruct (Nat.eqb_spec 3 c) as [<- | _]; [contradiction |].
    destruct (Nat.eqb_spec c 1) as [-> | _]; [contradiction |].
    reflexivity.
Qed.

Lemma composite_background_channels_witness :
  (1%nat = 1%nat ->
   exists image,
     composite (raster_of (2, 2)%positive) (np_full (2, 2, 1)%nat 7) = Ok image
     /\ shape image = (2, 2, 3)%nat
     /\ forall i j k, (i < 2)%nat -> (j < 2)%nat -> (k < 3)%nat ->
          item image i j k
          = (if 0 <? item (raster_of (2, 2)%positive) i j 3
             then item (raster_of (2, 2)%positive) i j k
             else item (np_full (2, 2, 1)%nat 7) i j 0) mod 256)
  /\ (1%nat <> 1%nat -> 1%nat <> 3%nat ->
      composite (raster_of (2, 2)%positive) (np_full (2, 2, 1)%nat 7) = Raise "ValueError").
Proof.
  apply (composite_background_channels (raster_of (2, 2)%positive) (np_full (2, 2, 1)%nat 7)
           2 2 1); reflexivity.
Defined.

(** X11: images composited one over the other, the output of one call the
    background of the next, as the module does to render several objects: a
    pixel of the result is that of the later raster where its alpha is
    greater than 0, else that of the earlier raster where its alpha is
    greater than 0, else that of the first background, as 8-bit unsigned. *)
Theorem composite_layers (earlier later img : ndarray) (h w : nat) :
  shape earlier = (h, w, 4%nat) ->
  shape later = (h, w, 4%nat) ->
  shape img = (h, w, 3%nat) ->
  exists below image,
    composite earlier img = Ok below
    /\ composite later below = Ok image
    /\ shape image = (h, w, 3%nat)
    /\ forall i j k, (i < h)%nat -> (j < w)%nat -> (k < 3)%nat ->
         item image i j k
         = (if 0 <? item later i j 3 then item later i j k
            else if 0 <? item earlier i j 3 then item earlier i j k
            else item img i j k) mod 256.
Proof.
  intros Hearlier Hlater Himg.
  unfold composite, last_channel_positive, drop_last_channel, np_multiply, np_add,
    elementwise, np_rsub, astype_uint8, bitem.
  rewrite Hearlier, Hlater, Himg.
  cbn [Nat.eqb Nat.sub shape item rbind broadcast_shapes].
  repeat first
    [ rewrite broadcast_dim_same
    | rewrite broadcast_dim_one_r
    | rewrite broadcast_dim_one_l
    | progress cbn [rbind shape item broadcast_shapes] ].
  do 2 eexists. split; [reflexivity |].
  repeat first
    [ rewrite broadcast_dim_same
    | rewrite broadcast_dim_one_r
    | rewrite broadcast_dim_one_l
    | progress cbn [rbind shape item broadcast_shapes] ].
  split; [reflexivity |]. split; [reflexivity |].
  intros i j k Hi Hj Hk. cbn [item].
  rewrite !(bidx_in_range h i), !(bidx_in_range w j), !(bidx_in_range 3 k) by assumption.
  destruct (0 <? item later i j 3).
  - f_equal. lia.
  - replace (item later i j k * 0 + (1 - 0) * _) with
      ((item earlier i j k * (if 0 <? item earlier i j 3 then 1 else 0)
        + (1 - (if 0 <? item earlier i j 3 then 1 else 0)) * item img i j k) mod 256) by lia.
    rewrite Z.mod_mod by lia.
    destruct (0 <? item earlier i j 3); f_equal; lia.
Qed.

Lemma composite_layers_witness :
  exists below image,
    composite (raster_of (2, 2)%positive) (np_full (2, 2, 3)%nat 255) = Ok below
    /\ composite (np_full (2, 2, 4)%nat 0) below = Ok image
    /\ shape image = (2, 2, 3)%nat
    /\ forall i j k, (i < 2)%nat -> (j < 2)%nat -> (k < 3)%nat ->
         item image i j k
         = (if 0 <? item (np_full (2, 2, 4)%nat 0) i j 3
            then item (np_full (2, 2, 4)%nat 0) i j k
            else if 0 <? item (raster_of (2, 2)%positive) i j 3
                 then item (raster_of (2, 2)%positive) i j k
                 else item (np_full (2, 2, 3)%nat 255) i j k) mod 256.
Proof.
  apply (composite_layers (raster_of (2, 2)%positive) (np_full (2, 2, 4)%nat 0)
           (np_full (2, 2, 3)%nat 255) 2 2); reflexivity.
Defined.

(** ** A camera of scale 0 *)

Section ZeroScale.
Local Open Scope Qc_scope.

Local Ltac as_Qc :=
  cbn [lit fadd fsub fmul fdiv fneg feqb rational] in *;
  change (Q2Qc (inject_Z 0)) with 0 in *;
  change (Q2Qc (inject_Z 1)) with 1 in *;
  rewrite ?Qc_lit_minus_one, ?Qc_lit_two in *.

Lemma weak_projection_det (cam : WeakPerspectiveCamera Qc) (width height : option Z) :
  det 4 (get_projection_matrix cam width height) = - (fst (scale cam) * snd (scale cam)).
Proof.
  destruct cam as [[sx sy] [tx ty] zn zf nm]. cbn. as_Qc. ring.
Qed.

(** X12: with a weak-perspective camera of which a scale is 0, the
    projection matrix is singular and [screenspace_to_worldspace] raises
    numpy's [LinAlgError] for every pixel, leaving the instance as it was;
    [push_cam] accepts such a camera.  The scalars are the exact
    rationals. *)
Theorem screenspace_to_worldspace_zero_scale (env : Collaborators Qc) (self : Renderer Qc)
    (sx sy tx ty x y : Qc) :
  sx = 0 \/ sy = 0 ->
  let pushed := snd (push_cam (sx, sy, tx, ty) self) in
  fst (push_cam (sx, sy, tx, ty) self) = Ok tt
  /\ screenspace_to_worldspace env x y pushed = (Raise "LinAlgError", pushed).
Proof.
  intros Hzero pushed. split; [reflexivity |].
  unfold screenspace_to_worldspace, andthen, get_self, pure, lift.
  subst pushed. unfold push_cam, andthen, set_camera_pose, scene_add, set_scene, set_cam_node.
  cbn [fst snd cam_node scene resolution Scene_add camera camera_projection_matrix].
  unfold np_linalg_inv.
  set (P := get_projection_matrix _ _ _).
  change (length P) with 4%nat. subst P. rewrite weak_projection_det.
  cbn [camera_of scale fst snd feqb rational lit]. change (Q2Qc (inject_Z 0)) with 0.
  assert (Hd : - (sx * sy) = 0) by (destruct Hzero as [-> | ->]; ring).
  rewrite Hd. destruct (Qc_eq_dec 0 0) as [_ | Hne]; [reflexivity | now destruct Hne].
Qed.

Lemma screenspace_to_worldspace_zero_scale_witness :
  fst (push_cam (Q2Qc 0, lit 3, lit 5, lit 7)
         (Renderer_init exact_stub (224, 224)%positive false false false)) = Ok tt
  /\ screenspace_to_worldspace exact_stub (lit 56) (lit 168)
       (snd (push_cam (Q2Qc 0, lit 3, lit 5, lit 7)
               (Renderer_init exact_stub (224, 224)%positive false false false)))
     = (Raise "LinAlgError",
        snd (push_cam (Q2Qc 0, lit 3, lit 5, lit 7)
               (Renderer_init exact_stub (224, 224)%positive false false false))).
Proof.
  apply (screenspace_to_worldspace_zero_scale exact_stub
           (Renderer_init exact_stub (224, 224)%positive false false false)
           (Q2Qc 0) (lit 3) (lit 5) (lit 7) (lit 56) (lit 168)).
  left. reflexivity.
Defined.
End ZeroScale.

(** ** The white canvas and the rasterizer's frame *)

Lemma composite_same_size (rgb img : ndarray) (h w : nat) :
  shape rgb = (h, w, 4%nat) ->
  shape img = (h, w, 3%nat) ->
  exists image,
    composite rgb img = Ok image
    /\ shape image = (h, w, 3%nat)
    /\ forall i j k, (i < h)%nat -> (j < w)%nat -> (k < 3)%nat ->
         item image i j k
         = (if 0 <? item rgb i j 3 then item rgb i j k else item img i j k) mod 256.
Proof.
  intros Hrgb Himg.
  unfold composite, last_channel_positive, drop_last_channel, np_multiply, np_add,
    elementwise, np_rsub, astype_uint8, bitem.
  rewrite Hrgb, Himg. cbn [Nat.eqb Nat.sub shape item rbind broadcast_shapes].
  repeat first
    [ rewrite broadcast_dim_same
    | rewrite broadcast_dim_one_r
    | rewrite broadcast_dim_one_l
    | progress cbn [rbind shape item broadcast_shapes] ].
  eexists. split; [reflexivity |]. split; [reflexivity |].
  intros i j k Hi Hj Hk. cbn [item].
  rewrite !(bidx_in_range h i), !(bidx_in_range w j), !(bidx_in_range 3 k) by assumption.
  destruct (0 <? item rgb i j 3); f_equal; lia.
Qed.

Section CanvasFacts.
Context {F : Type} {SF : Scalar F} {LF : Libm F} (env : Collaborators F).

(** X14: the white canvas fits the rasterizer's frame.  In a session
    constructed with [renderOnWhite] for the resolution (width, height), with
    a current camera and a rasterizer that answers with an RGBA raster of
    height rows and width columns, [pop_and_render()] with the background
    omitted returns: the compositing step cannot raise, and the image has
    height rows and width columns, the raster's colour where its alpha is
    greater than 0 and white (255) elsewhere. *)
Theorem pop_and_render_on_white_canvas_returns (viewport : positive * positive)
    (orig_img wireframe : bool) (calls : list Call) (rgb_depth : ndarray * ndarray) :
  let init := Renderer_init env viewport orig_img wireframe true in
  let self := session env calls init in
  let h := Pos.to_nat (snd viewport) in
  let w := Pos.to_nat (fst viewport) in
  is_Some (cam_node self) ->
  offscreen_render env (resolution self) (scene self) (render_flags_of self) = Ok rgb_depth ->
  shape (fst rgb_depth) = (h, w, 4%nat) ->
  exists image self',
    pop_and_render env None self = (Ok image, self')
    /\ shape image = (h, w, 3%nat)
    /\ forall i j k, (i < h)%nat -> (j < w)%nat -> (k < 3)%nat ->
         item image i j k
         = if 0 <? item (fst rgb_depth) i j 3 then item (fst rgb_depth) i j k mod 256 else 255.
Proof.
  intros init self h w [c Hcam] Hraster Hshape.
  assert (Hinv : session_inv init self)
    by apply session_inv_reachable, session_inv_init.
  pose proof (inv_white _ _ Hinv) as Hwhite. cbn [init Renderer_init whiteBackground] in Hwhite.
  fold h w in Hwhite.
  destruct (composite_same_size (fst rgb_depth) (np_full (h, w, 3%nat) 255) h w Hshape eq_refl)
    as (image & Hcomp & Himage & Hpixels).
  destruct (pop_and_render_returns env init self None (np_full (h, w, 3%nat) 255)
              rgb_depth image c Hinv Hcam Hwhite Hraster Hcomp) as (self' & Hrun & _).
  exists image, self'. split; [exact Hrun |]. split; [exact Himage |].
  intros i j k Hi Hj Hk. rewrite (Hpixels i j k Hi Hj Hk). cbn [np_full item].
  now destruct (0 <? item (fst rgb_depth) i j 3).
Qed.

(** X15: in a session [pop_and_render] does all or nothing: a call that
    raises, for a background of the wrong shape or a failing rasterizer as
    for a missing camera, has removed no node and changed no attribute, so
    the frame that was pushed can be popped again. *)
Theorem pop_and_render_raise_changes_nothing (viewport : positive * positive)
    (orig_img wireframe renderOnWhite : bool) (calls : list Call)
    (img : option ndarray) (e : string) (self' : Renderer F) :
  let init := Renderer_init env viewport orig_img wireframe renderOnWhite in
  let self := session env calls init in
  pop_and_render env img self = (Raise e, self') -> self' = self.
Proof.
  intros init self Hrun.
  assert (Hinv : session_inv init self)
    by apply session_inv_reachable, session_inv_init.
  destruct (pop_and_render_outcome env init self img Hinv)
    as [(e' & Hraise) | (image & self'' & Hok)].
  - rewrite Hraise in Hrun. now injection Hrun as _ <-.
  - rewrite Hok in Hrun. discriminate Hrun.
Qed.
End CanvasFacts.

Lemma pop_and_render_on_white_canvas_returns_witness :
  exists image self',
    pop_and_render stub None
      (session stub two_humans_one_object (Renderer_init stub (3, 2)%positive false false true))
    = (Ok image, self')
    /\ shape image = (2, 3, 3)%nat
    /\ forall i j k, (i < 2)%nat -> (j < 3)%nat -> (k < 3)%nat ->
         item image i j k
         = if 0 <? item (raster_of (3, 2)%positive) i j 3
           then item (raster_of (3, 2)%positive) i j k mod 256 else 255.
Proof.
  apply (pop_and_render_on_white_canvas_returns stub (3, 2)%positive false false
           two_humans_one_object (raster_of (3, 2)%positive, depth_of (3, 2)%positive)).
  - vm_compute. eauto.
  - reflexivity.
  - reflexivity.
Defined.

Lemma pop_and_render_raise_changes_nothing_witness :
  let self := session stub two_humans_one_object
                (Renderer_init stub (2, 2)%positive false false true) in
  let r := pop_and_render stub (Some (np_full (3, 2, 3)%nat 0)) self in
  fst r = Raise "ValueError" /\ snd r = self.
Proof.
  intros self r.
  assert (Hraises : fst r = Raise "ValueError") by (vm_compute; reflexivity).
  split; [exact Hraises |].
  apply (pop_and_render_raise_changes_nothing stub (2, 2)%positive false false true
           two_humans_one_object (Some (np_full (3, 2, 3)%nat 0)) "ValueError" (snd r)).
  change (r = (Raise "ValueError", snd r)). rewrite <- Hraises. now destruct r.
Defined.
